(** * PC-build assistant (index.js): reconciliation pipeline

    A shallow embedding of the request handler of [src/index.js] and of the
    helpers it is built from: [fetchWithRetry], [fetchProduct],
    [findBestMatch] and the [/api/generate] handler.

    JavaScript numbers are IEEE-754 doubles and are modelled by Rocq's
    primitive binary64 floats.  Promises are modelled by a state-and-exception
    monad over a [World] that carries the clock, the product cache, the call
    counters and a trace of the outbound calls.  The collaborators that are
    not part of the file (the HTTP client, the chat-completion provider, the
    similarity score of the string-similarity package and two JavaScript
    built-ins) are the fields of an [Env]. *)

From Stdlib Require Import PrimFloat ZArith QArith Lia Ascii String DecimalString.
From stdpp Require Import gmap strings list.

Set Default Proof Using "Type".
Set Warnings "-register-all".

(** ** JavaScript values *)

(** The values [JSON.parse] can produce, plus [undefined].  An object is the
    list of its own properties in enumeration order. *)
Inductive JsValue :=
| JUndefined
| JNull
| JBool (b : bool)
| JNum (x : float)
| JStr (s : string)
| JArr (elems : list JsValue)
| JObj (props : list (string * JsValue)).

(** [typeof v === 'string'] *)
Definition is_string (v : JsValue) : bool :=
  match v with JStr _ => true | _ => false end.

(** Decimal rendering of an array index, as [Object.keys] yields it. *)
Definition index_key (i : nat) : string := NilEmpty.string_of_uint (Nat.to_uint i).

Definition string_chars (s : string) : list string :=
  (fun a => String a EmptyString) <$> list_ascii_of_string s.

(** Own enumerable properties of a value that is not null or undefined:
    the characters of a string, the elements of an array, the properties of
    an object; a number or a boolean has none. *)
Definition own_properties (v : JsValue) : list (string * JsValue) :=
  match v with
  | JStr s => imap (fun i c => (index_key i, JStr c)) (string_chars s)
  | JArr l => imap (fun i x => (index_key i, x)) l
  | JObj kvs => kvs
  | _ => []
  end.

(** ** Errors and the promise monad *)

Inductive Error :=
| AxiosError (status : option Z)   (* [error.response.status], when there is a response *)
| JsError (message : string)       (* [new Error(message)] *)
| TypeError
| URIError.

Inductive Result (A : Type) :=
| Ok (a : A)
| Throw (e : Error).
Arguments Ok {A} a.
Arguments Throw {A} e.

(** A message of a chat-completion request. *)
Record Message := { role : string; content : string }.

(** Outbound calls, in the order they are issued. *)
Inductive Event :=
| EvGet (url : string)              (* axios.get *)
| EvDelay (ms : Z)                  (* setTimeout(resolve, ms) *)
| EvChat (messages : list Message). (* openai.chat.completions.create *)

(** A marketplace listing, as [fetchProduct] projects it from a result card. *)
Record Listing := {
  name : string;
  price : float;
  url : string;
  image : string;
  rating : float;
  reviewCount : float;
}.

(** An entry of the product cache: the stored value and its absolute expiry
    timestamp in milliseconds. *)
Record CacheEntry := { v : list Listing; t : Z }.

Record World := {
  now : Z;                          (* Date.now(), milliseconds *)
  cache : gmap string CacheEntry;   (* the process-wide product cache *)
  requests : nat;                   (* axios.get calls issued so far *)
  completions : nat;                (* chat-completion calls issued so far *)
  trace : list Event;
}.

Definition M (A : Type) : Type := World -> Result A * World.

Definition ret {A} (a : A) : M A := fun w => (Ok a, w).
Definition throw {A} (e : Error) : M A := fun w => (Throw e, w).
Definition bind {A B} (m : M A) (k : A -> M B) : M B :=
  fun w => match m w with
           | (Ok a, w') => k a w'
           | (Throw e, w') => (Throw e, w')
           end.
(** [try { m } catch (error) { h error }] *)
Definition try_catch {A} (m : M A) (h : Error -> M A) : M A :=
  fun w => match m w with
           | (Ok a, w') => (Ok a, w')
           | (Throw e, w') => h e w'
           end.

Notation "x <- m ;; k" := (bind m (fun x => k))
  (at level 100, m at next level, right associativity).
Notation "m ;;; k" := (bind m (fun _ => k))
  (at level 100, right associativity).

(** [Promise.all(xs.map(f))], the jobs taken in their launch order. *)
Fixpoint mapM {A B} (f : A -> M B) (xs : list A) : M (list B) :=
  match xs with
  | [] => ret []
  | x :: xs' => y <- f x ;; ys <- mapM f xs' ;; ret (y :: ys)
  end.

(** [await new Promise(resolve => setTimeout(resolve, delay))] *)
Definition sleep (delay : Z) : M unit :=
  fun w => (Ok tt, {| now := (now w + delay)%Z; cache := cache w;
                      requests := requests w; completions := completions w;
                      trace := trace w ++ [EvDelay delay] |}).

(** ** The marketplace response *)

Record Card := {
  title : string;
  unitPrice : float;
  shopLink : string;
  previewImages : option (list string);  (* the [large] field of each image; [None]: no such array *)
  card_rating : float;
  reviewsQuantity : float;
}.

Record Response := {
  content_type : option string;      (* response.headers['content-type'] *)
  cards : option (list Card);        (* response.data.data.cards, [None] when the body has no such path *)
}.

Inductive AxiosResult :=
| AxiosOk (response : Response)
| AxiosFail (status : option Z).

Definition Headers := list (string * string).

(** The text of a chat completion ([choices[0].message.content]) together
    with the value [JSON.parse] yields on it; [None] when it throws. *)
Record Completion := { text : string; json : option JsValue }.

(** What the handler takes from outside the file. *)
Record Env := {
  (* the outcome of the [n]-th [axios.get] of the process *)
  axios_get_outcome : nat -> string -> Headers -> AxiosResult;
  (* the outcome of the [n]-th chat completion; [Throw] when the call rejects *)
  chat_outcome : nat -> list Message -> Result Completion;
  (* [compareTwoStrings] of string-similarity: a score between 0 and 1 *)
  compareTwoStrings : string -> string -> Q;
  (* the built-in, [None] for a URIError *)
  encodeURIComponent : string -> option string;
  (* how a number prints inside a template literal *)
  Number_toString : float -> string;
  (* the constant [systemPrompt], lines 110 to 129 *)
  systemPrompt : string;
}.

(** ** Objects used as maps *)

(** [o[key]] on the own properties; a key that is not there reads as [None]. *)
Fixpoint obj_get {V} (o : list (string * V)) (key : string) : option V :=
  match o with
  | [] => None
  | (k, x) :: o' => if String.eqb k key then Some x else obj_get o' key
  end.

(** The number of a key that is an array index: a canonical decimal numeral
    below 2^32 - 1.  JavaScript enumerates the array indices of an object
    first, in ascending order, and then the other string keys in the order
    of their creation. *)
Definition array_index (key : string) : option N :=
  match NilEmpty.uint_of_string key with
  | Some d =>
      let n := N.of_uint d in
      if String.eqb (NilEmpty.string_of_uint (N.to_uint n)) key && (n <? 4294967295)%N
      then Some n
      else None
  | None => None
  end.

(** A key that is neither an array index nor ["__proto__"]. *)
Definition ordinary_key (key : string) : bool :=
  negb (String.eqb key "__proto__") &&
  match array_index key with Some _ => false | None => true end.

(** The value of an existing own property is replaced where it is. *)
Fixpoint obj_replace {V} (key : string) (value : V) (o : list (string * V))
    : list (string * V) :=
  match o with
  | [] => []
  | (k, x) :: o' =>
      if String.eqb k key then (k, value) :: o' else (k, x) :: obj_replace key value o'
  end.

(** A new array index [n] goes after the smaller indices and before
    everything else. *)
Fixpoint obj_insert_index {V} (n : N) (key : string) (value : V) (o : list (string * V))
    : list (string * V) :=
  match o with
  | [] => [(key, value)]
  | (k, x) :: o' =>
      match array_index k with
      | Some m =>
          if (m <? n)%N then (k, x) :: obj_insert_index n key value o'
          else (key, value) :: o
      | None => (key, value) :: o
      end
  end.

(** [o[key] = value] on a plain object, as far as its own properties go.
    The key ["__proto__"] runs the setter inherited from [Object.prototype]:
    the prototype changes and no own property is created (the handler reads
    own properties only: [Object.values], [Object.entries] and the JSON of
    [res.send]).  An existing property keeps its place; a new array index
    goes among the indices, any other new key goes last. *)
Definition obj_set {V} (key : string) (value : V) (o : list (string * V))
    : list (string * V) :=
  if String.eqb key "__proto__" then o
  else
    match obj_get o key with
    | Some _ => obj_replace key value o
    | None =>
        match array_index key with
        | Some n => obj_insert_index n key value o
        | None => o ++ [(key, value)]
        end
    end.

Definition Object_values {V} (o : list (string * V)) : list V := o.*2.

(** [Object.keys] and [Object.entries] throw a TypeError on null and
    undefined. *)
Definition Object_entries (value : JsValue) : M (list (string * JsValue)) :=
  match value with
  | JUndefined | JNull => throw TypeError
  | _ => ret (own_properties value)
  end.

Definition Object_keys (value : JsValue) : M (list string) :=
  entries <- Object_entries value ;; ret entries.*1.

(** [value[key]] *)
Definition js_get (value : JsValue) (key : string) : JsValue :=
  default JUndefined (obj_get (own_properties value) key).

(** [haystack.includes(needle)] on strings *)
Fixpoint String_includes (haystack needle : string) : bool :=
  String.prefix needle haystack ||
  match haystack with
  | EmptyString => false
  | String _ rest => String_includes rest needle
  end.

(** [array.includes(x)] on arrays of strings *)
Definition Array_includes (array : list string) (x : string) : bool :=
  existsb (String.eqb x) array.

(** [array.indexOf(x)], [-1] when [x] is not an element *)
Fixpoint indexOf (array : list string) (x : string) : Z :=
  match array with
  | [] => (-1)%Z
  | y :: rest =>
      if String.eqb y x then 0%Z
      else let i := indexOf rest x in if (i <? 0)%Z then (-1)%Z else (i + 1)%Z
  end.

(** [array[i]], [None] for undefined *)
Definition array_get {A} (array : list A) (i : Z) : option A :=
  if (i <? 0)%Z then None else array !! Z.to_nat i.

(** ** The product cache *)

(** The node-cache package is not under src/; the cache is created with
    [stdTTL: 3600] (line 27). *)
Module NodeCache.

Definition stdTTL : Z := 3600.

(** Modelled from the spec: node-cache's expiry test, missing from src/.  An
    entry carries an absolute expiry timestamp (spec 3, CacheEntry) and is
    expired once the clock is past it. *)
Definition expired (e : CacheEntry) (time : Z) : bool := (t e <? time)%Z.

(** Modelled from the spec: node-cache's [get], missing from src/.  It
    returns the stored sequence, or absent when there is no entry or the
    entry is expired (spec 4.2); an entry read after its expiry is evicted
    (spec 3). *)
Definition get (key : string) : M (option (list Listing)) :=
  fun w =>
    match cache w !! key with
    | Some e =>
        if expired e (now w)
        then (Ok None, {| now := now w; cache := delete key (cache w);
                          requests := requests w; completions := completions w;
                          trace := trace w |})
        else (Ok (Some (v e)), w)
    | None => (Ok None, w)
    end.

(** Modelled from the spec: node-cache's [set], missing from src/.  The
    entry expires a fixed TTL after its insertion (spec 4.2). *)
Definition set (key : string) (value : list Listing) : M unit :=
  fun w =>
    (Ok tt, {| now := now w;
               cache := <[key := {| v := value; t := (now w + stdTTL * 1000)%Z |}]> (cache w);
               requests := requests w; completions := completions w;
               trace := trace w |}).

End NodeCache.

(** Bottleneck's [limiter.wrap] and [queue.schedule] only postpone the start
    of a job; they leave its result and its errors as they are. *)
Definition limiter_wrap {A B} (job : A -> M B) : A -> M B := job.
Definition queue_schedule {A} (job : M A) : M A := job.

Section Handler.

Variable env : Env.

Definition axios_get (url : string) (headers : Headers) : M Response :=
  fun w =>
    let w' := {| now := now w; cache := cache w; requests := S (requests w);
                 completions := completions w; trace := trace w ++ [EvGet url] |} in
    match axios_get_outcome env (requests w) url headers with
    | AxiosOk r => (Ok r, w')
    | AxiosFail s => (Throw (AxiosError s), w')
    end.

(** [error.response && error.response.status === 429] *)
Definition is_429 (error : Error) : bool :=
  match error with
  | AxiosError (Some s) => (s =? 429)%Z
  | _ => false
  end.

(** The [for] loop of [fetchWithRetry] from iteration [i] on, with [left]
    iterations to go. *)
Fixpoint fetchWithRetry_loop (url : string) (headers : Headers) (baseDelay : Z)
    (left i : nat) : M Response :=
  match left with
  | O => throw (JsError "Max retries reached")
  | S left' =>
      try_catch (axios_get url headers)
        (fun error =>
           if is_429 error then
             sleep (baseDelay * 2 ^ Z.of_nat i)%Z ;;;
             fetchWithRetry_loop url headers baseDelay left' (S i)
           else throw error)
  end.

Definition fetchWithRetry (url : string) (headers : Headers)
    (maxRetries : nat) (baseDelay : Z) : M Response :=
  fetchWithRetry_loop url headers baseDelay maxRetries 0.

Definition default_maxRetries : nat := 5.
Definition default_baseDelay : Z := 5000.

(** [String(v)] for the values above *)
Fixpoint ToString (value : JsValue) : string :=
  match value with
  | JUndefined => "undefined"
  | JNull => "null"
  | JBool b => if b then "true" else "false"
  | JNum x => Number_toString env x
  | JStr s => s
  | JArr l =>
      String.concat ","
        (map (fun x => match x with
                       | JUndefined | JNull => EmptyString
                       | _ => ToString x
                       end) l)
  | JObj _ => "[object Object]"
  end.

Definition search_url (query : string) : string :=
  "https://kaspi.kz/yml/product-view/pl/filters?text=" +:+ query +:+
  "&hint_chips_click=false&page=0&all=false&fl=true&ui=d&q=%3AavailableInZones%3AMagnum_ZONE1&i=-1&c=750000000".

Definition search_headers (query : string) : Headers :=
  [ ("Host", "kaspi.kz");
    ("User-Agent", "Mozilla/5.0 (X11; Ubuntu; Linux x86_64; rv:128.0) Gecko/20100101 Firefox/128.0");
    ("Accept", "application/json, text/*");
    ("Accept-Language", "en-US,en;q=0.5");
    ("Accept-Encoding", "gzip, deflate, br, zstd");
    ("X-KS-City", "750000000");
    ("Connection", "keep-alive");
    ("Referer", "https://kaspi.kz/shop/search/?text=" +:+ query +:+ "&hint_chips_click=false");
    ("Cookie", "ks.tg=71; k_stat=aa96833e-dac6-4558-a423-eacb2f0e53e4; kaspi.storefront.cookie.city=750000000");
    ("Sec-Fetch-Dest", "empty");
    ("Sec-Fetch-Mode", "cors");
    ("Sec-Fetch-Site", "same-origin") ].

(** The projection of one result card; [card.previewImages[0]] throws when
    the card has no [previewImages]. *)
Definition project_card (card : Card) : M Listing :=
  match previewImages card with
  | None => throw TypeError
  | Some images =>
      ret {| name := title card;
             price := unitPrice card;
             url := shopLink card;
             image := default EmptyString (head images);
             rating := card_rating card;
             reviewCount := reviewsQuantity card |}
  end.

Definition cacheKey_of (searchTerm : JsValue) : string :=
  "product:" +:+ ToString searchTerm.

(** The part of [fetchProduct] inside its [try] block. *)
Definition fetch_listings (cacheKey query : string) : M (list Listing) :=
  response <- fetchWithRetry (search_url query) (search_headers query)
                default_maxRetries default_baseDelay ;;
  match content_type response with
  | None => throw TypeError
  | Some ct =>
      if String_includes ct "application/json" then
        match cards response with
        | None => throw TypeError
        | Some cs =>
            products <- mapM project_card cs ;;
            NodeCache.set cacheKey products ;;;
            ret products
        end
      else ret []
  end.

Definition fetchProduct : JsValue -> M (list Listing) :=
  limiter_wrap (fun searchTerm =>
    let cacheKey := cacheKey_of searchTerm in
    cachedResult <- NodeCache.get cacheKey ;;
    match cachedResult with
    | Some products => ret products
    | None =>
        match encodeURIComponent env (ToString searchTerm) with
        | None => throw URIError
        | Some query =>
            try_catch (fetch_listings cacheKey query) (fun error => ret [])
        end
    end).

(** ** Best match *)

Record Rating := { target : string; rating_of : Q }.

Definition Qgt_bool (x y : Q) : bool := negb (Qle_bool x y).

(** Modelled from the spec: the scan inside string-similarity's
    [findBestMatch], missing from src/.  The best index moves to [i] when the
    rating at [i] is strictly greater than the best so far, which yields the
    argmax of spec 4.3. *)
Fixpoint best_scan (ratings : list Rating) (i : nat) (best : nat * Rating) : nat * Rating :=
  match ratings with
  | [] => best
  | r :: rest =>
      best_scan rest (S i)
        (if Qgt_bool (rating_of r) (rating_of best.2) then (i, r) else best)
  end.

(** Modelled from the spec: [findBestMatch] of the string-similarity
    package, missing from src/.  It rates every target against the main
    string and returns the first target of greatest rating as [bestMatch]
    (the argmax of spec 4.3, with no floor); it rejects a main string that is
    not a string and an empty target array. *)
Definition stringSimilarity_findBestMatch (mainString : JsValue)
    (targetStrings : list string) : M Rating :=
  match mainString, targetStrings with
  | JStr main, first :: _ =>
      let ratings :=
        map (fun s => {| target := s; rating_of := compareTwoStrings env main s |})
            targetStrings in
      ret (best_scan ratings 0
             (0%nat, {| target := first; rating_of := compareTwoStrings env main first |})).2
  | _, _ =>
      throw (JsError "Bad arguments: First argument should be a string, second should be an array of strings")
  end.

Definition findBestMatch (searchTerm : JsValue) (products : list Listing)
    : M (option Listing) :=
  if (length products =? 0)%nat then ret None
  else
    let productNames := map name products in
    bestMatch <- stringSimilarity_findBestMatch searchTerm productNames ;;
    let bestMatchIndex := indexOf productNames (target bestMatch) in
    ret (array_get products bestMatchIndex).

(** ** The request handler *)

Record Request := { prompt : string; budget : float }.

Inductive HttpResponse :=
| Send (response : string) (products : list (string * Listing))
| InternalServerError.

(** One element of [fetchedProducts]; [None] is [null]. *)
Record Fetched := { key : string; product : option Listing }.

Definition requiredComponents : list string :=
  ["CPU"; "GPU"; "Motherboard"; "RAM"; "PSU"; "CPU Cooler"; "FAN"; "PC case"].

Definition chat_completions_create (messages : list Message) : M Completion :=
  fun w =>
    (chat_outcome env (completions w) messages,
     {| now := now w; cache := cache w; requests := requests w;
        completions := S (completions w); trace := trace w ++ [EvChat messages] |}).

Definition JSON_parse (c : Completion) : M JsValue :=
  match json c with
  | Some value => ret value
  | None => throw (JsError "SyntaxError")
  end.

Definition currentMessages (req : Request) : list Message :=
  [ {| role := "system"; content := systemPrompt env |};
    {| role := "user";
       content := prompt req +:+ " The budget for this build is " +:+
                  Number_toString env (budget req) +:+ " KZT." |} ].

(** The callback of the initial batch, for one required key. *)
Definition resolve_required (components : JsValue) (key : string) : M Fetched :=
  let component := js_get components key in
  try_catch
    (products <- fetchProduct component ;;
     bestMatchProduct <- findBestMatch component products ;;
     ret {| key := key; product := bestMatchProduct |})
    (fun err => ret {| key := key; product := None |}).

(** The callback of the adjusted batch, for one entry of the adjusted
    mapping. *)
Definition resolve_adjusted (entry : string * JsValue) : M Fetched :=
  let '(key, component) := entry in
  if is_string component then
    try_catch
      (products <- fetchProduct component ;;
       bestMatchProduct <- findBestMatch component products ;;
       ret {| key := key; product := bestMatchProduct |})
      (fun err => ret {| key := key; product := None |})
  else ret {| key := key; product := None |}.

Definition availableProducts (fetchedProducts : list Fetched) : list Fetched :=
  List.filter (fun f => match product f with Some _ => true | None => false end)
    fetchedProducts.

Definition missingComponents (fetchedProducts : list Fetched) : list string :=
  map key
    (List.filter (fun f => match product f with Some _ => false | None => true end)
       fetchedProducts).

(** The callback shared by the [reduce] that builds [productResponse] and by
    the merging [forEach]: [if (product) acc[key] = product]. *)
Definition assign_product (acc : list (string * Listing)) (f : Fetched)
    : list (string * Listing) :=
  match product f with
  | Some p => obj_set (key f) p acc
  | None => acc
  end.

Definition productResponse_of (fetchedProducts : list Fetched) : list (string * Listing) :=
  fold_left assign_product (availableProducts fetchedProducts) [].

Definition totalPrice_of (productResponse : list (string * Listing)) : float :=
  fold_left (fun sum product => PrimFloat.add sum (price product))
    (Object_values productResponse) 0%float.

(** [Math.abs(totalPrice - budget) / budget <= 0.1]; the literal is the
    double that [0.1] denotes. *)
Definition within_tolerance (totalPrice budget : float) : bool :=
  PrimFloat.leb
    (PrimFloat.div (PrimFloat.abs (PrimFloat.sub totalPrice budget)) budget)
    0x1.999999999999ap-4%float.

(** The condition of the early [res.send]. *)
Definition acceptable (missing : list string) (totalPrice budget : float) : bool :=
  (length missing =? 0)%nat && within_tolerance totalPrice budget.

Definition newline : string := String (ascii_of_nat 10) EmptyString.

Definition componentsWithPrices (productResponse : list (string * Listing)) : string :=
  String.concat ", "
    (map (fun '(key, product) =>
            key +:+ ": " +:+ name product +:+ " - " +:+
            Number_toString env (price product) +:+ " KZT")
         productResponse).

Definition adjustmentPrompt (req : Request) (totalPrice : float)
    (missing : list string) (productResponse : list (string * Listing)) : string :=
  "The following components were not found or the total price (" +:+
  Number_toString env totalPrice +:+ " KZT) is not within 10% of the budget (" +:+
  Number_toString env (budget req) +:+ " KZT):" +:+ newline +:+ "    " +:+
  String.concat ", " missing +:+ ". Current components and prices: " +:+
  componentsWithPrices productResponse +:+ "." +:+ newline +:+
  "    Please suggest alternatives for the missing components and adjust the build to be closer to the budget while maintaining performance. STRICTLY: Provide your response in the same JSON format as before. Ensure the total cost does not exceed the budget and remains within 10% of the budget." +:+
  newline +:+
  "    And Also Please ensure that all components are real pc components because before parser could give me freezer or something random".

Definition adjustmentMessages (req : Request) (totalPrice : float)
    (missing : list string) (productResponse : list (string * Listing)) : list Message :=
  [ {| role := "system"; content := systemPrompt env |};
    {| role := "user"; content := adjustmentPrompt req totalPrice missing productResponse |} ].

(** The handler of [POST /api/generate]. *)
Definition generate (req : Request) : M HttpResponse :=
  try_catch
    (result <- chat_completions_create (currentMessages req) ;;
     let responseText := text result in
     components <- try_catch (JSON_parse result)
                     (fun error => throw (JsError "Failed to parse JSON response from OpenAI")) ;;
     componentKeys <- Object_keys components ;;
     if negb (forallb (fun comp => Array_includes componentKeys comp) requiredComponents)
     then throw (JsError "OpenAI response is missing one or more required components")
     else
       fetchedProducts <- queue_schedule
                            (mapM (resolve_required components) requiredComponents) ;;
       let missing := missingComponents fetchedProducts in
       let productResponse := productResponse_of fetchedProducts in
       let totalPrice := totalPrice_of productResponse in
       if acceptable missing totalPrice (budget req)
       then ret (Send responseText productResponse)
       else
         adjustmentResult <- chat_completions_create
                               (adjustmentMessages req totalPrice missing productResponse) ;;
         let adjustedResponseText := text adjustmentResult in
         try_catch
           (adjustedComponents <- JSON_parse adjustmentResult ;;
            entries <- Object_entries adjustedComponents ;;
            adjustedFetchedProducts <- queue_schedule (mapM resolve_adjusted entries) ;;
            let productResponse := fold_left assign_product adjustedFetchedProducts productResponse in
            ret (Send adjustedResponseText productResponse))
           (fun error => ret InternalServerError))
    (fun err => ret InternalServerError).

End Handler.

(** ** Vocabulary of the statements *)

(** The delays of [k] throttled attempts starting at iteration [i]. *)
Fixpoint backoff_delays (baseDelay : Z) (i k : nat) : list Z :=
  match k with
  | O => []
  | S k' => (baseDelay * 2 ^ Z.of_nat i)%Z :: backoff_delays baseDelay (S i) k'
  end.

(** What [k] throttled attempts leave in the trace: a request, then a delay. *)
Definition retry_events (url : string) (baseDelay : Z) (i k : nat) : list Event :=
  flat_map (fun d => [EvGet url; EvDelay d]) (backoff_delays baseDelay i k).

Definition delays_of (events : list Event) : list Z :=
  flat_map (fun e => match e with EvDelay d => [d] | _ => [] end) events.

Definition is_throttle (o : AxiosResult) : bool :=
  match o with
  | AxiosFail (Some s) => (s =? 429)%Z
  | _ => false
  end.

Definition outcome_result (o : AxiosResult) : Result Response :=
  match o with
  | AxiosOk r => Ok r
  | AxiosFail s => Throw (AxiosError s)
  end.

(** The world after [k] throttled attempts and, when [last] is set, one more
    request. *)
Definition after_attempts (url : string) (baseDelay : Z) (i k : nat) (last : bool)
    (w : World) : World :=
  {| now := (now w + foldr Z.add 0 (backoff_delays baseDelay i k))%Z;
     cache := cache w;
     requests := requests w + k + (if last then 1 else 0);
     completions := completions w;
     trace := trace w ++ retry_events url baseDelay i k ++ (if last then [EvGet url] else []) |}.

(** The world right after a chat-completion call. *)
Definition chatted (messages : list Message) (w : World) : World :=
  {| now := now w; cache := cache w; requests := requests w;
     completions := S (completions w); trace := trace w ++ [EvChat messages] |}.

(** The resolved entries of a batch, in the order of the batch. *)
Definition resolved_entries (fetchedProducts : list Fetched) : list (string * Listing) :=
  omap (fun f => match product f with Some p => Some (key f, p) | None => None end)
    fetchedProducts.

(** The INITIAL phase ran to the end of its batch: the provider answered
    [c], its text parsed to [components], which has the required keys, and
    the batch returned [fetchedProducts] in world [w2]. *)
Definition initial_run (env : Env) (req : Request) (w : World) (c : Completion)
    (components : JsValue) (fetchedProducts : list Fetched) (w2 : World) : Prop :=
  chat_outcome env (completions w) (currentMessages env req) = Ok c /\
  json c = Some components /\
  components <> JNull /\ components <> JUndefined /\
  forallb (fun comp => Array_includes (own_properties components).*1 comp)
    requiredComponents = true /\
  mapM (resolve_required env components) requiredComponents
    (chatted (currentMessages env req) w) = (Ok fetchedProducts, w2).

(** The messages of the ADJUSTED call that follows a batch. *)
Definition adjustment_of (env : Env) (req : Request) (fetchedProducts : list Fetched)
    : list Message :=
  adjustmentMessages env req (totalPrice_of (productResponse_of fetchedProducts))
    (missingComponents fetchedProducts) (productResponse_of fetchedProducts).

(** The ADJUSTED phase ran to the end of its batch: the provider answered
    [c2], its text parsed to [adjusted], which has entries, and the batch
    over them returned [adjustedFetched] in world [w3]. *)
Definition adjusted_run (env : Env) (req : Request) (fetchedProducts : list Fetched)
    (w2 : World) (c2 : Completion) (adjusted : JsValue)
    (adjustedFetched : list Fetched) (w3 : World) : Prop :=
  chat_outcome env (completions w2) (adjustment_of env req fetchedProducts) = Ok c2 /\
  json c2 = Some adjusted /\
  adjusted <> JNull /\ adjusted <> JUndefined /\
  mapM (resolve_adjusted env) (own_properties adjusted)
    (chatted (adjustment_of env req fetchedProducts) w2) = (Ok adjustedFetched, w3).

(** What is left of the handler once the early [res.send] is not taken. *)
Definition adjusted_phase (env : Env) (req : Request) (fetchedProducts : list Fetched)
    : M HttpResponse :=
  try_catch
    (adjustmentResult <- chat_completions_create env (adjustment_of env req fetchedProducts) ;;
     try_catch
       (adjustedComponents <- JSON_parse adjustmentResult ;;
        entries <- Object_entries adjustedComponents ;;
        adjustedFetchedProducts <- queue_schedule (mapM (resolve_adjusted env) entries) ;;
        ret (Send (text adjustmentResult)
               (fold_left assign_product adjustedFetchedProducts
                  (productResponse_of fetchedProducts))))
       (fun error => ret InternalServerError))
    (fun err => ret InternalServerError).

(** The initial bundle passes the test of the early [res.send]. *)
Definition bundle_acceptable (req : Request) (fetchedProducts : list Fetched) : bool :=
  acceptable (missingComponents fetchedProducts)
    (totalPrice_of (productResponse_of fetchedProducts)) (budget req).

(** The keys of a parsed value are exactly the eight required ones. *)
Definition required_keys_exactly (components : JsValue) : Prop :=
  forall k, k ∈ (own_properties components).*1 <-> k ∈ requiredComponents.

(** The reading of the specification under which any first completion whose
    keys are not exactly the required ones fails the request. *)
Definition inexact_spec_is_fatal : Prop :=
  forall env req w c components,
    chat_outcome env (completions w) (currentMessages env req) = Ok c ->
    json c = Some components ->
    ~ required_keys_exactly components ->
    (generate env req w).1 = Ok InternalServerError.

(** An event a request may leave in the trace: a call to the provider, one
    of the five delays of the default backoff, or a request to the search
    endpoint of the marketplace. *)
Definition allowed_event (e : Event) : Prop :=
  (exists messages, e = EvChat messages) \/
  (exists i, i < default_maxRetries /\ e = EvDelay (default_baseDelay * 2 ^ Z.of_nat i)) \/
  (exists query, e = EvGet (search_url query)).

(** From [w] to [w'] the clock and the counters have not gone back and the
    trace has grown by events that satisfy [P]. *)
Definition advances (P : Event -> Prop) (w w' : World) : Prop :=
  (now w <= now w')%Z /\
  requests w <= requests w' /\
  completions w <= completions w' /\
  exists events, trace w' = trace w ++ events /\ Forall P events.

Definition advancing (P : Event -> Prop) {A} (m : M A) : Prop :=
  forall w, advances P w (m w).2.

(** The computation issues at most [n] requests. *)
Definition requests_within (n : nat) {A} (m : M A) : Prop :=
  forall w, requests (m w).2 <= requests w + n.

(** The entries of an adjusted mapping whose value is a string. *)
Definition string_entries (entries : list (string * JsValue)) : list (string * JsValue) :=
  List.filter (fun entry => is_string entry.2) entries.

(** The listing a card projects to when it has a [previewImages] array. *)
Definition listing_of_card (card : Card) : Listing :=
  {| name := title card;
     price := unitPrice card;
     url := shopLink card;
     image := default EmptyString (head (default [] (previewImages card)));
     rating := card_rating card;
     reviewCount := reviewsQuantity card |}.

(** Every card of a page has a [previewImages] array. *)
Definition cards_readable (cs : list Card) : bool :=
  forallb (fun card => match previewImages card with Some _ => true | None => false end) cs.


(** The reading of the specification under which the best match of a
    non-empty sequence is a listing of it for any query term. *)
Definition selects_for_any_term : Prop :=
  forall env term products w,
    products <> [] ->
    exists p, findBestMatch env term products w = (Ok (Some p), w) /\ p ∈ products.

(** ** Concrete environments *)

Module Scenario.

Definition card (title : string) (unitPrice : float) : Card :=
  {| title := title; unitPrice := unitPrice; shopLink := "https://kaspi.kz/shop/p/1";
     previewImages := Some []; card_rating := 5%float; reviewsQuantity := 1%float |}.

Definition json_response (cards : list Card) : Response :=
  {| content_type := Some "application/json;charset=UTF-8"; cards := Some cards |}.

(** An environment from a script of HTTP outcomes and a script of chat
    outcomes; the score is 1 on equal strings and 0 otherwise. *)
Definition scripted (http : nat -> string -> AxiosResult)
    (chat : nat -> Result Completion) : Env :=
  {| axios_get_outcome := fun n url _ => http n url;
     chat_outcome := fun n _ => chat n;
     compareTwoStrings := fun a b => if String.eqb a b then 1%Q else 0%Q;
     encodeURIComponent := Some;
     Number_toString := fun _ => "0";
     systemPrompt := "system" |}.

Definition boot : World :=
  {| now := 1720000000000; cache := ∅; requests := 0; completions := 0; trace := [] |}.

(** Three throttling responses, then a page with one card. *)
Definition throttled_thrice : Env :=
  scripted
    (fun n _ => if (n <? 3)%nat then AxiosFail (Some 429%Z)
                else AxiosOk (json_response [card "AMD Ryzen 5 3600" 60000%float]))
    (fun _ => Throw (JsError "unused")).

Definition page (title : string) (unitPrice : float) : AxiosResult :=
  AxiosOk (json_response [card title unitPrice]).

(** The build of the example in the system prompt. *)
Definition spec8 : JsValue :=
  JObj [ ("CPU", JStr "AMD Ryzen 5 3600");
         ("GPU", JStr "Gigabyte GeForce GTX 1660 SUPER OC");
         ("Motherboard", JStr "Asus PRIME B450M-K");
         ("RAM", JStr "Corsair Vengeance LPX 16GB");
         ("PSU", JStr "EVGA 600 W1");
         ("CPU Cooler", JStr "Cooler Master Hyper 212");
         ("FAN", JStr "Noctua NF-P12");
         ("PC case", JStr "NZXT H510") ].

(** The same build with a ninth key. *)
Definition spec9 : JsValue :=
  match spec8 with
  | JObj props => JObj (props ++ [("Monitor", JStr "LG 24MK430H")])
  | other => other
  end.

Definition first_completion (spec : JsValue) : Completion :=
  {| text := "initial completion"; json := Some spec |}.

Definition request : Request := {| prompt := "A PC for gaming."; budget := 500000 |}.

(** Every search returns one listing at 62500: the eight add up to the
    budget. *)
Definition all_found : Env :=
  scripted (fun _ _ => page "listing" 62500) (fun _ => Ok (first_completion spec8)).

Definition nine_keys : Env :=
  scripted (fun _ _ => page "listing" 62500) (fun _ => Ok (first_completion spec9)).

(** The adjusted mapping of [gpu_missing]: a new GPU and a RAM value that is
    not a string. *)
Definition adjusted_spec : JsValue :=
  JObj [ ("GPU", JStr "GeForce RTX 4090"); ("RAM", JNum 16) ].

Definition second_completion : Completion :=
  {| text := "adjusted completion"; json := Some adjusted_spec |}.

(** The search for the GPU (the second request) returns no card; the ninth
    request, made for the adjusted GPU, returns a listing at 900000. *)
Definition gpu_missing : Env :=
  scripted
    (fun n _ => if (n =? 1)%nat then AxiosOk (json_response [])
                else if (n =? 8)%nat then page "RTX 4090" 900000
                else page "listing" 62500)
    (fun n => if (n =? 0)%nat then Ok (first_completion spec8) else Ok second_completion).

(** The provider answers with prose. *)
Definition malformed : Env :=
  scripted (fun _ _ => page "listing" 62500)
    (fun _ => Ok {| text := "Sure, here is a build."; json := None |}).

(** No request gets a response. *)
Definition offline : Env :=
  scripted (fun _ _ => AxiosFail None) (fun _ => Ok (first_completion spec8)).

(** The initial batch of [request] in [env], from [boot]. *)
Definition initial_batch (env : Env) (spec : JsValue) : Result (list Fetched) * World :=
  mapM (resolve_required env spec) requiredComponents
    (chatted (currentMessages env request) boot).

Definition fetched_of (r : Result (list Fetched) * World) : list Fetched :=
  match r.1 with Ok fetched => fetched | Throw _ => [] end.

(** The world of [gpu_missing] right after its second call, and its
    adjusted batch. *)
Definition adjusted_start : World :=
  chatted (adjustment_of gpu_missing request (fetched_of (initial_batch gpu_missing spec8)))
    (initial_batch gpu_missing spec8).2.

Definition adjusted_batch : Result (list Fetched) * World :=
  mapM (resolve_adjusted gpu_missing) (own_properties adjusted_spec) adjusted_start.

Definition listing (name : string) (price : float) : Listing :=
  {| name := name; price := price; url := "https://kaspi.kz/shop/p/1"; image := EmptyString;
     rating := 5%float; reviewCount := 1%float |}.

(** The provider rejects every call. *)
Definition provider_down : Env :=
  scripted (fun _ _ => page "listing" 62500) (fun _ => Throw (JsError "503")).

(** The provider answers with a JSON array. *)
Definition array_completion : Completion :=
  {| text := "array completion"; json := Some (JArr [JStr "AMD Ryzen 5 3600"]) |}.

Definition answers_array : Env :=
  scripted (fun _ _ => page "listing" 62500) (fun _ => Ok array_completion).

(** As [gpu_missing], with a number as the second completion. *)
Definition number_completion : Completion :=
  {| text := "number completion"; json := Some (JNum 42) |}.

Definition adjusted_number : Env :=
  scripted
    (fun n _ => if (n =? 1)%nat then AxiosOk (json_response []) else page "listing" 62500)
    (fun n => if (n =? 0)%nat then Ok (first_completion spec8) else Ok number_completion).

(** Every search returns a JSON page without cards. *)
Definition no_results : Env :=
  scripted (fun _ _ => AxiosOk (json_response [])) (fun _ => Ok (first_completion spec8)).

(** A build whose CPU is a number. *)
Definition numeric_cpu : JsValue := JObj [ ("CPU", JNum 3600) ].






End Scenario.

Section Properties.

Variable env : Env.

Lemma world_eta (w : World) :
  {| now := now w; cache := cache w; requests := requests w;
     completions := completions w; trace := trace w |} = w.
Proof. by destruct w. Qed.

(** *** What a computation leaves untouched *)

Definition keeps_completions {A} (m : M A) : Prop :=
  forall w, completions (m w).2 = completions w.

Definition keeps_cache {A} (m : M A) : Prop :=
  forall w, cache (m w).2 = cache w.

Lemma keeps_completions_bind {A B} (m : M A) (k : A -> M B) :
  keeps_completions m -> (forall a, keeps_completions (k a)) ->
  keeps_completions (bind m k).
Proof.
  intros Hm Hk w. unfold bind. specialize (Hm w).
  destruct (m w) as [[a|e] w']; simpl in *; [by rewrite Hk | done].
Qed.

Lemma keeps_completions_try {A} (m : M A) (h : Error -> M A) :
  keeps_completions m -> (forall e, keeps_completions (h e)) ->
  keeps_completions (try_catch m h).
Proof.
  intros Hm Hh w. unfold try_catch. specialize (Hm w).
  destruct (m w) as [[a|e] w']; simpl in *; [done | by rewrite Hh].
Qed.

Lemma keeps_completions_mapM {A B} (f : A -> M B) (xs : list A) :
  (forall x, keeps_completions (f x)) -> keeps_completions (mapM f xs).
Proof.
  intros Hf. induction xs as [|x xs IH]; [done|]. simpl.
  apply keeps_completions_bind; [done|]. intros y.
  apply keeps_completions_bind; [done|]. by intros ys.
Qed.

Lemma fetchWithRetry_loop_keeps_completions url headers baseDelay left :
  forall i, keeps_completions (fetchWithRetry_loop env url headers baseDelay left i).
Proof.
  induction left as [|left IH]; intros i; [done|]. simpl.
  apply keeps_completions_try.
  - intros w. unfold axios_get. by destruct (axios_get_outcome env _ _ _).
  - intros e. destruct (is_429 e); [|done].
    apply keeps_completions_bind; [done|]. by intros _.
Qed.

Lemma fetchWithRetry_loop_keeps_cache url headers baseDelay left :
  forall i, keeps_cache (fetchWithRetry_loop env url headers baseDelay left i).
Proof.
  induction left as [|left IH]; intros i; [done|]. simpl.
  intros w. unfold try_catch, axios_get.
  destruct (axios_get_outcome env _ _ _) as [r|s]; [done|].
  destruct (is_429 _); [|done].
  unfold bind, sleep. by rewrite IH.
Qed.

(** The projection of the cards is a pure computation. *)
Lemma mapM_project_card_pure (cs : list Card) (w : World) :
  (mapM project_card cs w).2 = w.
Proof.
  induction cs as [|c cs IH]; [done|]. cbn [mapM].
  unfold bind at 1, project_card at 1.
  destruct (previewImages c); [|done]. unfold ret at 1. unfold bind at 1.
  by destruct (mapM project_card cs w) as [[ys|e] w'].
Qed.

Lemma fetchProduct_keeps_completions term : keeps_completions (fetchProduct env term).
Proof.
  unfold fetchProduct, limiter_wrap.
  apply keeps_completions_bind.
  { intros w. unfold NodeCache.get. destruct (cache w !! _); [|done].
    by destruct (NodeCache.expired _ _). }
  intros [products|]; [done|].
  destruct (encodeURIComponent env _) as [query|]; [|done].
  apply keeps_completions_try; [|done].
  unfold fetch_listings. apply keeps_completions_bind.
  { apply fetchWithRetry_loop_keeps_completions. }
  intros r. destruct (content_type r) as [ct|]; [|done].
  destruct (String_includes ct _); [|done].
  destruct (cards r) as [cs|]; [|done].
  apply keeps_completions_bind.
  { intros w. by rewrite mapM_project_card_pure. }
  intros products. apply keeps_completions_bind; [done|]. by intros _.
Qed.

Lemma findBestMatch_pure term products (w : World) :
  (findBestMatch env term products w).2 = w.
Proof.
  unfold findBestMatch. destruct (length products =? 0); [done|].
  unfold bind, stringSimilarity_findBestMatch.
  destruct term; try done. by destruct (map name products).
Qed.

(** *** Objects *)

Lemma obj_get_None {V} (o : list (string * V)) k : obj_get o k = None <-> k ∉ o.*1.
Proof.
  induction o as [|[k' y] o IH]; cbn.
  - split; [intros _; apply not_elem_of_nil | done].
  - rewrite not_elem_of_cons. destruct (String.eqb k' k) eqn:Heq.
    + apply String.eqb_eq in Heq as ->. split; [done | by intros [? _]].
    + apply String.eqb_neq in Heq. rewrite IH. split; [intros Hn; split; congruence | by intros [_ Hn]].
Qed.

Lemma obj_get_replace_eq {V} (k : string) (x : V) o :
  is_Some (obj_get o k) -> obj_get (obj_replace k x o) k = Some x.
Proof.
  induction o as [|[k0 y] o IH]; cbn; [by intros [? ?]|].
  destruct (String.eqb k0 k) eqn:Heq; cbn; rewrite Heq; [done|]. apply IH.
Qed.

Lemma obj_get_replace_ne {V} (k k' : string) (x : V) o :
  k <> k' -> obj_get (obj_replace k x o) k' = obj_get o k'.
Proof.
  intros Hne. induction o as [|[k0 y] o IH]; cbn; [done|].
  destruct (String.eqb k0 k) eqn:Heq; cbn; [|by rewrite IH].
  apply String.eqb_eq in Heq as ->. by apply String.eqb_neq in Hne as ->.
Qed.

Lemma obj_get_insert_index_eq {V} n (k : string) (x : V) o :
  obj_get o k = None -> obj_get (obj_insert_index n k x o) k = Some x.
Proof.
  induction o as [|[k0 y] o IH]; cbn; [by rewrite String.eqb_refl|].
  destruct (String.eqb k0 k) eqn:Heq; [done|]. intros Hnone.
  destruct (array_index k0) as [m|]; [destruct (m <? n)%N|]; cbn;
    rewrite ?Heq, ?String.eqb_refl; auto.
Qed.

Lemma obj_get_insert_index_ne {V} n (k k' : string) (x : V) o :
  k <> k' -> obj_get (obj_insert_index n k x o) k' = obj_get o k'.
Proof.
  intros Hne. apply String.eqb_neq in Hne.
  induction o as [|[k0 y] o IH]; cbn; [by rewrite Hne|].
  destruct (array_index k0) as [m|]; [destruct (m <? n)%N|]; cbn; rewrite ?Hne, ?IH; done.
Qed.

Lemma obj_get_snoc {V} (k k' : string) (x : V) o :
  obj_get (o ++ [(k, x)]) k' =
    match obj_get o k' with
    | Some y => Some y
    | None => if String.eqb k k' then Some x else None
    end.
Proof.
  induction o as [|[k0 y] o IH]; cbn; [done|]. by destruct (String.eqb k0 k').
Qed.

(** An assignment to ["__proto__"] leaves the own properties as they are. *)
Lemma obj_set_proto {V} (x : V) o : obj_set "__proto__" x o = o.
Proof. done. Qed.

Lemma obj_get_set_eq {V} (k : string) (x : V) o :
  k <> "__proto__" -> obj_get (obj_set k x o) k = Some x.
Proof.
  intros Hne. unfold obj_set. apply String.eqb_neq in Hne as ->.
  destruct (obj_get o k) as [y|] eqn:Hget.
  - apply obj_get_replace_eq. by rewrite Hget.
  - destruct (array_index k) as [n|].
    + by apply obj_get_insert_index_eq.
    + by rewrite obj_get_snoc, Hget, String.eqb_refl.
Qed.

Lemma obj_get_set_ne {V} (k k' : string) (x : V) o :
  k <> k' -> obj_get (obj_set k x o) k' = obj_get o k'.
Proof.
  intros Hne. unfold obj_set. destruct (String.eqb k "__proto__"); [done|].
  destruct (obj_get o k) as [y|].
  - by apply obj_get_replace_ne.
  - destruct (array_index k) as [n|].
    + by apply obj_get_insert_index_ne.
    + rewrite obj_get_snoc. apply String.eqb_neq in Hne as ->. by destruct (obj_get o k').
Qed.

Lemma obj_set_fresh {V} (k : string) (x : V) o :
  ordinary_key k = true -> k ∉ o.*1 -> obj_set k x o = o ++ [(k, x)].
Proof.
  unfold ordinary_key, obj_set. intros [Hproto Hidx]%andb_true_iff Hnot.
  apply negb_true_iff in Hproto as ->. apply obj_get_None in Hnot as ->.
  by destruct (array_index k).
Qed.

Lemma assign_product_get acc f k :
  obj_get (assign_product acc f) k =
    match product f with
    | Some p =>
        if String.eqb (key f) k && negb (String.eqb k "__proto__")
        then Some p
        else obj_get acc k
    | None => obj_get acc k
    end.
Proof.
  unfold assign_product. destruct (product f) as [p|]; [|done].
  destruct (String.eqb (key f) k) eqn:Heq; cbn [andb].
  - apply String.eqb_eq in Heq as <-.
    destruct (String.eqb (key f) "__proto__") eqn:Hproto; cbn [negb].
    + apply String.eqb_eq in Hproto as ->. by rewrite obj_set_proto.
    + apply String.eqb_neq in Hproto. by apply obj_get_set_eq.
  - apply String.eqb_neq in Heq. by apply obj_get_set_ne.
Qed.

(** Merging leaves a key alone when no fetched entry for it has a product. *)
Lemma merge_frame (fetched : list Fetched) :
  forall o k,
    (forall f, f ∈ fetched -> key f = k -> product f = None) ->
    obj_get (fold_left assign_product fetched o) k = obj_get o k.
Proof.
  induction fetched as [|f fs IH]; intros o k Hnone; [done|]. cbn.
  rewrite IH by (intros g Hg; apply Hnone; by right).
  rewrite assign_product_get.
  destruct (product f) as [p|] eqn:Hp; [|done].
  destruct (String.eqb (key f) k) eqn:Heq; [|done].
  apply String.eqb_eq in Heq. rewrite (Hnone f) in Hp; [done|by left|done].
Qed.

(** Merging never touches the key ["__proto__"]. *)
Lemma merge_proto (fetched : list Fetched) :
  forall o, obj_get (fold_left assign_product fetched o) "__proto__" = obj_get o "__proto__".
Proof.
  induction fetched as [|f fs IH]; intros o; [done|]. cbn.
  rewrite IH, assign_product_get.
  destruct (product f); [|done]. by rewrite andb_false_r.
Qed.

(** Merging never removes a property. *)
Lemma merge_keeps (fetched : list Fetched) :
  forall o k,
    is_Some (obj_get o k) -> is_Some (obj_get (fold_left assign_product fetched o) k).
Proof.
  induction fetched as [|f fs IH]; intros o k Hsome; [done|]. cbn.
  apply IH. rewrite assign_product_get.
  destruct (product f); [|done].
  by destruct (String.eqb (key f) k && negb (String.eqb k "__proto__")).
Qed.


(** A property that was not there is there after the merge exactly when its
    key is not ["__proto__"] and some fetched entry for that key has a
    product. *)
Lemma merge_adds (fetched : list Fetched) :
  forall o k,
    obj_get o k = None ->
    (is_Some (obj_get (fold_left assign_product fetched o) k) <->
     k <> "__proto__" /\
     exists f, f ∈ fetched /\ key f = k /\ is_Some (product f)).
Proof.
  induction fetched as [|f fs IH]; intros o k Hnone; cbn.
  - rewrite Hnone. split; [by intros [? ?] | intros (_ & f & Hf & _); by apply elem_of_nil in Hf].
  - destruct (obj_get (assign_product o f) k) as [x|] eqn:Hget.
    + rewrite assign_product_get in Hget.
      destruct (product f) as [p|] eqn:Hp; [|congruence].
      destruct (String.eqb (key f) k) eqn:Heq; cbn [andb] in Hget; [|congruence].
      destruct (String.eqb k "__proto__") eqn:Hproto; cbn [negb] in Hget; [congruence|].
      apply String.eqb_eq in Heq. apply String.eqb_neq in Hproto.
      split.
      * intros _. split; [done|]. exists f. split; [by left|]. split; [done|]. by rewrite Hp.
      * intros _. apply merge_keeps. rewrite assign_product_get, Hp.
        apply String.eqb_eq in Heq as ->. apply String.eqb_neq in Hproto as ->. by eexists.
    + rewrite (IH _ _ Hget). split.
      * intros (Hproto & g & Hg & Hk & Hs). split; [done|]. exists g. split; [by right|done].
      * intros (Hproto & g & [->|Hg]%elem_of_cons & Hk & Hs); [|split; [done|by exists g]].
        rewrite assign_product_get in Hget. destruct Hs as [p Hp].
        rewrite Hp in Hget. apply String.eqb_eq in Hk. rewrite Hk in Hget.
        apply String.eqb_neq in Hproto. rewrite Hproto in Hget. done.
Qed.

Lemma fold_assign_fresh (fetched : list Fetched) :
  forall acc,
    NoDup (acc.*1 ++ map key fetched) ->
    Forall (fun k => ordinary_key k = true) (map key fetched) ->
    fold_left assign_product (availableProducts fetched) acc =
      acc ++ resolved_entries fetched.
Proof.
  induction fetched as [|f fs IH]; intros acc Hnd Hord; cbn.
  - by rewrite app_nil_r.
  - cbn in Hnd. apply NoDup_app in Hnd as (Hacc & Hdisj & Hfs).
    apply NoDup_cons in Hfs as (Hf & Hfs).
    cbn in Hord. apply Forall_cons in Hord as [Hk Hord].
    destruct (product f) as [p|] eqn:Hp; cbn.
    + unfold assign_product at 2. rewrite Hp.
      rewrite obj_set_fresh; [|done|intros Hin; apply (Hdisj _ Hin); by left].
      rewrite IH; [by rewrite <- app_assoc| |done].
      rewrite fmap_app. cbn. apply NoDup_app. split; [|split; [|done]].
      * apply NoDup_app. split; [done|]. split; [|apply NoDup_singleton].
        intros x Hx ->%list_elem_of_singleton. apply (Hdisj _ Hx). by left.
      * intros x [Hx | ->%list_elem_of_singleton]%elem_of_app Hx'; [|done].
        apply (Hdisj _ Hx). by right.
    + apply IH; [|done]. apply NoDup_app. split; [done|]. split; [|done].
      intros x Hx Hx'. apply (Hdisj _ Hx). by right.
Qed.

(** With distinct keys that are neither indices nor ["__proto__"],
    [productResponse] lists the resolved entries in the order of the
    batch. *)
Lemma productResponse_of_distinct (fetched : list Fetched) :
  NoDup (map key fetched) ->
  Forall (fun k => ordinary_key k = true) (map key fetched) ->
  productResponse_of fetched = resolved_entries fetched.
Proof. intros Hnd Hord. unfold productResponse_of. by rewrite fold_assign_fresh. Qed.

Lemma requiredComponents_NoDup : NoDup requiredComponents.
Proof. apply (bool_decide_unpack _). by vm_compute. Qed.

Lemma requiredComponents_ordinary :
  Forall (fun k => ordinary_key k = true) requiredComponents.
Proof. repeat constructor. Qed.

(** The bundle of a batch over the required keys. *)
Lemma required_response (fetched : list Fetched) :
  map key fetched = requiredComponents ->
  productResponse_of fetched = resolved_entries fetched.
Proof.
  intros Hkeys. apply productResponse_of_distinct; rewrite Hkeys.
  - apply requiredComponents_NoDup.
  - apply requiredComponents_ordinary.
Qed.

Lemma resolved_entries_prices (fetched : list Fetched) :
  map price (Object_values (resolved_entries fetched)) =
    map price (omap product fetched).
Proof.
  unfold Object_values, resolved_entries.
  induction fetched as [|f fs IH]; [done|]. cbn.
  destruct (product f); cbn; by rewrite IH.
Qed.

Lemma totalPrice_of_prices (o : list (string * Listing)) :
  totalPrice_of o = fold_left PrimFloat.add (map price (Object_values o)) 0%float.
Proof.
  unfold totalPrice_of. generalize 0%float.
  induction (Object_values o) as [|p ps IH]; intros z; [done|]. cbn. apply IH.
Qed.

(** *** The batches *)

Lemma mapM_total {A B} (f : A -> M B) (P : A -> B -> Prop) :
  (forall x w, exists y, (f x w).1 = Ok y /\ P x y) ->
  forall xs w, exists ys, (mapM f xs w).1 = Ok ys /\ Forall2 P xs ys.
Proof.
  intros Hf. induction xs as [|x xs IH]; intros w.
  - exists []. by split.
  - destruct (Hf x w) as (y & Hy & HP). cbn [mapM]. unfold bind at 1.
    destruct (f x w) as [r w1]. cbn in Hy. subst r.
    destruct (IH w1) as (ys & Hys & HF). unfold bind at 1.
    destruct (mapM f xs w1) as [r w2]. cbn in Hys. subst r.
    exists (y :: ys). split; [done|]. by constructor.
Qed.

(** The guarded body shared by the two batch callbacks. *)
Lemma guarded_resolution_total (k : string) (component : JsValue) (w : World) :
  exists p,
    (try_catch
       (products <- fetchProduct env component ;;
        bestMatchProduct <- findBestMatch env component products ;;
        ret {| key := k; product := bestMatchProduct |})
       (fun err => ret {| key := k; product := None |}) w).1 =
    Ok {| key := k; product := p |}.
Proof.
  unfold try_catch, bind.
  destruct (fetchProduct env component w) as [[products|e] w1]; [|by exists None].
  destruct (findBestMatch env component products w1) as [[best|e] w2]; [|by exists None].
  by exists best.
Qed.

Lemma resolve_required_total components (k : string) (w : World) :
  exists f, (resolve_required env components k w).1 = Ok f /\ key f = k.
Proof.
  destruct (guarded_resolution_total k (js_get components k) w) as [p Hp].
  by exists {| key := k; product := p |}.
Qed.

Lemma resolve_adjusted_total (entry : string * JsValue) (w : World) :
  exists f, (resolve_adjusted env entry w).1 = Ok f /\ key f = entry.1.
Proof.
  destruct entry as [k component]. unfold resolve_adjusted.
  destruct (is_string component).
  - destruct (guarded_resolution_total k component w) as [p Hp].
    by exists {| key := k; product := p |}.
  - by exists {| key := k; product := None |}.
Qed.

Lemma Forall2_key_eq {A} (g : A -> string) (xs : list A) (fs : list Fetched) :
  Forall2 (fun x f => key f = g x) xs fs -> map key fs = map g xs.
Proof. induction 1; [done|]. cbn. by f_equal. Qed.

Lemma initial_batch_total components (keys : list string) (w : World) :
  exists fetched w',
    mapM (resolve_required env components) keys w = (Ok fetched, w') /\
    map key fetched = keys.
Proof.
  destruct (mapM_total (resolve_required env components) (fun k f => key f = k)
              (resolve_required_total components) keys w) as (fs & Hfs & HF).
  destruct (mapM _ keys w) as [r w'] eqn:Hrun. cbn in Hfs. subst r.
  exists fs, w'. split; [done|].
  apply (Forall2_key_eq id) in HF. by rewrite map_id in HF.
Qed.

Lemma adjusted_batch_total (entries : list (string * JsValue)) (w : World) :
  exists fetched w',
    mapM (resolve_adjusted env) entries w = (Ok fetched, w') /\
    map key fetched = entries.*1.
Proof.
  destruct (mapM_total (resolve_adjusted env) (fun e f => key f = e.1)
              (resolve_adjusted_total) entries w) as (fs & Hfs & HF).
  destruct (mapM _ entries w) as [r w'] eqn:Hrun. cbn in Hfs. subst r.
  exists fs, w'. split; [done|]. by apply (Forall2_key_eq fst) in HF.
Qed.

Lemma guarded_resolution_keeps_completions (k : string) (component : JsValue) :
  keeps_completions
    (try_catch
       (products <- fetchProduct env component ;;
        bestMatchProduct <- findBestMatch env component products ;;
        ret {| key := k; product := bestMatchProduct |})
       (fun err => ret {| key := k; product := None |})).
Proof.
  apply keeps_completions_try; [|done].
  apply keeps_completions_bind; [apply fetchProduct_keeps_completions|].
  intros products. apply keeps_completions_bind; [|done].
  intros w. by rewrite findBestMatch_pure.
Qed.

Lemma resolve_required_keeps_completions components k :
  keeps_completions (resolve_required env components k).
Proof. apply guarded_resolution_keeps_completions. Qed.

Lemma resolve_adjusted_keeps_completions entry :
  keeps_completions (resolve_adjusted env entry).
Proof.
  destruct entry as [k component]. unfold resolve_adjusted.
  destruct (is_string component); [|done].
  apply guarded_resolution_keeps_completions.
Qed.

(** *** The paths of the handler *)

Lemma chat_completions_create_run messages (w : World) :
  chat_completions_create env messages w =
    (chat_outcome env (completions w) messages, chatted messages w).
Proof. done. Qed.

Lemma Object_keys_run (value : JsValue) (w : World) :
  value <> JNull -> value <> JUndefined ->
  Object_keys value w = (Ok (own_properties value).*1, w).
Proof. by destruct value. Qed.

Lemma Object_entries_run (value : JsValue) (w : World) :
  value <> JNull -> value <> JUndefined ->
  Object_entries value w = (Ok (own_properties value), w).
Proof. by destruct value. Qed.

(** After the batch of the INITIAL phase the handler either answers at once
    or goes on to the ADJUSTED call. *)
Lemma generate_after_batch req w c components fetched w2 :
  initial_run env req w c components fetched w2 ->
  generate env req w =
    if bundle_acceptable req fetched
    then (Ok (Send (text c) (productResponse_of fetched)), w2)
    else adjusted_phase env req fetched w2.
Proof.
  intros (Hchat & Hjson & Hnull & Hundef & Hvalid & Hbatch).
  unfold generate. unfold try_catch at 1. unfold bind at 1.
  rewrite chat_completions_create_run, Hchat.
  unfold bind at 1. unfold try_catch at 1. unfold JSON_parse at 1. rewrite Hjson.
  unfold ret at 1. unfold bind at 1.
  rewrite Object_keys_run by done. rewrite Hvalid. cbn [negb].
  unfold bind at 1, queue_schedule at 1. rewrite Hbatch.
  fold (bundle_acceptable req fetched).
  destruct (bundle_acceptable req fetched); [done|].
  reflexivity.
Qed.

(** Before the batch, the handler fails in the world right after its first
    call, or it reaches the end of the batch. *)
Lemma generate_reaches_batch req w :
  generate env req w = (Ok InternalServerError, chatted (currentMessages env req) w) \/
  exists c components fetched w2, initial_run env req w c components fetched w2.
Proof.
  destruct (chat_outcome env (completions w) (currentMessages env req)) as [c|e] eqn:Hchat.
  2: { left. unfold generate, try_catch, bind.
       by rewrite chat_completions_create_run, Hchat. }
  destruct (json c) as [components|] eqn:Hjson.
  2: { left. unfold generate. unfold try_catch at 1. unfold bind at 1.
       rewrite chat_completions_create_run, Hchat.
       unfold bind at 1. unfold try_catch at 1. unfold JSON_parse at 1.
       by rewrite Hjson. }
  assert (Hstart : generate env req w =
    try_catch
      (componentKeys <- Object_keys components ;;
       if negb (forallb (fun comp => Array_includes componentKeys comp) requiredComponents)
       then throw (JsError "OpenAI response is missing one or more required components")
       else
         fetchedProducts <- mapM (resolve_required env components) requiredComponents ;;
         if bundle_acceptable req fetchedProducts
         then ret (Send (text c) (productResponse_of fetchedProducts))
         else adjusted_phase env req fetchedProducts)
      (fun err => ret InternalServerError) (chatted (currentMessages env req) w)).
  { unfold generate. unfold try_catch at 1. unfold bind at 1.
    rewrite chat_completions_create_run, Hchat.
    unfold bind at 1. unfold try_catch at 1. unfold JSON_parse at 1. rewrite Hjson.
    unfold ret at 1.
    unfold adjusted_phase, bundle_acceptable, adjustment_of, queue_schedule, try_catch, bind.
    destruct (Object_keys components _) as [[keys|e] w1]; [|done].
    destruct (negb _); [done|].
    destruct (mapM _ requiredComponents w1) as [[fetched|e] w2]; [|done].
    destruct (acceptable _ _ _); [done|].
    destruct (chat_completions_create env _ w2) as [[c2|e] w3]; [|done].
    destruct (JSON_parse c2 w3) as [[adjusted|e] w4]; [|done].
    destruct (Object_entries adjusted w4) as [[entries|e] w5]; [|done].
    by destruct (mapM _ entries w5) as [[adjustedFetched|e] w6]. }
  destruct (match components with JNull | JUndefined => true | _ => false end) eqn:Hn.
  { left. rewrite Hstart. by destruct components. }
  assert (Hnull : components <> JNull) by (by intros ->).
  assert (Hundef : components <> JUndefined) by (by intros ->).
  destruct (forallb (fun comp => Array_includes (own_properties components).*1 comp)
              requiredComponents) eqn:Hvalid.
  2: { left. rewrite Hstart. unfold try_catch, bind.
       rewrite Object_keys_run by done. by rewrite Hvalid. }
  right.
  destruct (initial_batch_total components requiredComponents
              (chatted (currentMessages env req) w)) as (fetched & w2 & Hbatch & _).
  by exists c, components, fetched, w2.
Qed.

(** The ADJUSTED phase makes one call to the provider. *)
Lemma adjusted_phase_completions req fetched (w2 : World) :
  completions (adjusted_phase env req fetched w2).2 = S (completions w2).
Proof.
  unfold adjusted_phase. unfold try_catch at 1. unfold bind at 1.
  rewrite chat_completions_create_run.
  destruct (chat_outcome env _ _) as [c2|e]; [|done].
  set (w' := chatted _ w2).
  assert (Hk : forall (m : M HttpResponse), keeps_completions m ->
               completions (let (r, w3) := m w' in
                            match r with
                            | Ok a => (Ok a, w3)
                            | Throw e => ret InternalServerError w3
                            end).2 = S (completions w2)).
  { intros m Hm. specialize (Hm w'). by destruct (m w') as [[r|e] w3]. }
  apply Hk. apply keeps_completions_try; [|done].
  apply keeps_completions_bind.
  { intros w. unfold JSON_parse. by destruct (json c2). }
  intros adjusted. apply keeps_completions_bind.
  { intros w. by destruct adjusted. }
  intros entries. apply keeps_completions_bind; [|done].
  apply keeps_completions_mapM. apply resolve_adjusted_keeps_completions.
Qed.

Lemma initial_run_completions req w c components fetched w2 :
  initial_run env req w c components fetched w2 -> completions w2 = S (completions w).
Proof.
  intros (_ & _ & _ & _ & _ & Hbatch).
  pose proof (keeps_completions_mapM (resolve_required env components) requiredComponents
                (resolve_required_keeps_completions components)
                (chatted (currentMessages env req) w)) as Hk.
  by rewrite Hbatch in Hk.
Qed.

Lemma generate_adjusts req w c components fetched w2 c2 adjusted adjustedFetched w3 :
  initial_run env req w c components fetched w2 ->
  bundle_acceptable req fetched = false ->
  adjusted_run env req fetched w2 c2 adjusted adjustedFetched w3 ->
  generate env req w =
    (Ok (Send (text c2)
           (fold_left assign_product adjustedFetched (productResponse_of fetched))), w3).
Proof.
  intros Hrun Hacc (Hchat & Hjson & Hnull & Hundef & Hbatch).
  rewrite (generate_after_batch _ _ _ _ _ _ Hrun), Hacc.
  unfold adjusted_phase, queue_schedule. unfold try_catch at 1. unfold bind at 1.
  rewrite chat_completions_create_run, Hchat.
  unfold try_catch at 1. unfold bind at 1. unfold JSON_parse at 1. rewrite Hjson.
  unfold ret at 1. unfold bind at 1. rewrite Object_entries_run by done.
  unfold bind at 1. by rewrite Hbatch.
Qed.

Lemma fetchWithRetry_loop_spec url headers baseDelay k :
  forall left i w,
    k <= left ->
    (forall j, j < k ->
       axios_get_outcome env (requests w + j) url headers = AxiosFail (Some 429%Z)) ->
    (k < left ->
       is_throttle (axios_get_outcome env (requests w + k) url headers) = false) ->
    fetchWithRetry_loop env url headers baseDelay left i w =
      (if k <? left
       then outcome_result (axios_get_outcome env (requests w + k) url headers)
       else Throw (JsError "Max retries reached"),
       after_attempts url baseDelay i k (k <? left) w).
Proof.
  induction k as [|k IH]; intros left i w Hle Hthr Hlast.
  - destruct left as [|left]; simpl.
    + unfold throw, after_attempts; simpl.
      rewrite !Nat.add_0_r, Z.add_0_r, app_nil_r. by rewrite world_eta.
    + assert (Hl : is_throttle (axios_get_outcome env (requests w + 0) url headers) = false)
        by (apply Hlast; lia).
      rewrite Nat.add_0_r in Hl.
      unfold try_catch, axios_get, after_attempts; simpl.
      rewrite !Nat.add_0_r, Z.add_0_r.
      replace (requests w + 1) with (S (requests w)) by lia.
      destruct (axios_get_outcome env (requests w) url headers) as [r|s]; simpl; [done|].
      destruct s as [s|]; simpl in *; [|done].
      by rewrite Hl.
  - destruct left as [|left]; [lia|].
    assert (H0 : axios_get_outcome env (requests w) url headers = AxiosFail (Some 429%Z)).
    { specialize (Hthr 0). rewrite Nat.add_0_r in Hthr. apply Hthr. lia. }
    cbn [fetchWithRetry_loop]. unfold try_catch at 1. unfold axios_get at 1.
    rewrite H0. cbn [is_429]. change (429 =? 429)%Z with true. cbv iota.
    unfold bind at 1, sleep at 1. cbn [now cache requests completions trace].
    rewrite IH; cbn [requests].
    + replace (S k <? S left) with (k <? left) by done.
      replace (S (requests w) + k) with (requests w + S k) by lia.
      f_equal. unfold after_attempts, retry_events.
      cbn [now cache requests completions trace backoff_delays foldr flat_map].
      f_equal; [lia|lia|].
      rewrite <- !app_assoc. done.
    + lia.
    + intros j Hj. replace (S (requests w) + j) with (requests w + S j) by lia.
      apply Hthr. lia.
    + intros Hk. replace (S (requests w) + k) with (requests w + S k) by lia.
      apply Hlast. lia.
Qed.

(** *** Best match *)

Lemma Qgt_bool_true x y : Qgt_bool x y = true <-> (y < x)%Q.
Proof.
  unfold Qgt_bool. rewrite negb_true_iff, <- not_true_iff_false, Qle_bool_iff.
  split; [apply Qnot_le_lt | apply Qlt_not_le].
Qed.

Lemma Qgt_bool_false x y : Qgt_bool x y = false <-> (x <= y)%Q.
Proof. unfold Qgt_bool. by rewrite negb_false_iff, Qle_bool_iff. Qed.

(** What the scan has established once it has gone through [seen]: the best
    so far is an element of [seen], no element is rated above it, and every
    element before it is rated strictly below it. *)
Definition best_so_far (seen : list Rating) (best : nat * Rating) : Prop :=
  seen !! best.1 = Some best.2 /\
  (forall r, r ∈ seen -> (rating_of r <= rating_of best.2)%Q) /\
  (forall j r, j < best.1 -> seen !! j = Some r -> (rating_of r < rating_of best.2)%Q).

Lemma best_scan_invariant rest :
  forall seen best,
    best_so_far seen best ->
    best_so_far (seen ++ rest) (best_scan rest (length seen) best).
Proof.
  induction rest as [|r rest IH]; intros seen best Hinv; simpl.
  - by rewrite app_nil_r.
  - replace (seen ++ r :: rest) with ((seen ++ [r]) ++ rest) by by rewrite <- app_assoc.
    replace (S (length seen)) with (length (seen ++ [r])) by (rewrite length_app; simpl; lia).
    apply IH. destruct Hinv as (Hat & Hmax & Hfirst).
    destruct (Qgt_bool (rating_of r) (rating_of best.2)) eqn:Hgt.
    + apply Qgt_bool_true in Hgt. repeat split; simpl.
      * by rewrite lookup_app_r, Nat.sub_diag.
      * intros r' [Hin | Hin%list_elem_of_singleton]%elem_of_app.
        -- apply Qlt_le_weak. eapply Qle_lt_trans; [by apply Hmax | done].
        -- subst. apply Qle_refl.
      * intros j r' Hj Hl. rewrite lookup_app_l in Hl by done.
        eapply Qle_lt_trans; [|done]. apply Hmax. by eapply list_elem_of_lookup_2.
    + apply Qgt_bool_false in Hgt. repeat split.
      * rewrite lookup_app_l; [done|]. by eapply lookup_lt_Some.
      * intros r' [Hin | Hin%list_elem_of_singleton]%elem_of_app; [by apply Hmax | by subst].
      * intros j r' Hj Hl. apply (Hfirst j r' Hj).
        rewrite lookup_app_l in Hl; [done|].
        apply lookup_lt_Some in Hat. lia.
Qed.

Lemma indexOf_first (array : list string) :
  forall i x,
    array !! i = Some x ->
    (forall j y, j < i -> array !! j = Some y -> y <> x) ->
    indexOf array x = Z.of_nat i.
Proof.
  induction array as [|y rest IH]; intros i x Hat Hfirst; [done|].
  simpl. destruct i as [|i]; simpl in Hat.
  - injection Hat as ->. by rewrite String.eqb_refl.
  - destruct (String.eqb y x) eqn:Heq.
    + apply String.eqb_eq in Heq. exfalso. apply (Hfirst 0 y); [lia|done|done].
    + rewrite (IH i x Hat).
      * destruct (Z.ltb_spec (Z.of_nat i) 0); lia.
      * intros j z Hj Hl. apply (Hfirst (S j) z); [lia|done].
Qed.

(** The package's [findBestMatch] on a string and a non-empty array: the
    target it returns is an element of the array, none is rated above it and
    those before it are rated strictly below. *)
Lemma stringSimilarity_findBestMatch_first (q : string) (names : list string) (w : World) :
  names <> [] ->
  exists b x,
    stringSimilarity_findBestMatch env (JStr q) names w =
      (Ok {| target := x; rating_of := compareTwoStrings env q x |}, w) /\
    names !! b = Some x /\
    (forall y, y ∈ names -> (compareTwoStrings env q y <= compareTwoStrings env q x)%Q) /\
    (forall j y, j < b -> names !! j = Some y ->
       (compareTwoStrings env q y < compareTwoStrings env q x)%Q).
Proof.
  intros Hne. destruct names as [|n0 rest]; [done|].
  set (mk := fun s => {| target := s; rating_of := compareTwoStrings env q s |}).
  pose proof (best_scan_invariant (map mk rest) [mk n0] (0, mk n0)) as Hinv.
  destruct Hinv as (Hat & Hmax & Hfirst).
  { repeat split; simpl.
    - intros r ->%list_elem_of_singleton. apply Qle_refl.
    - intros j r Hj. lia. }
  change ([mk n0] ++ map mk rest) with (map mk (n0 :: rest)) in Hat, Hmax, Hfirst.
  change (length [mk n0]) with 1 in Hat, Hmax, Hfirst.
  assert (Hrun : stringSimilarity_findBestMatch env (JStr q) (n0 :: rest) w =
                 (Ok (best_scan (map mk rest) 1 (0, mk n0)).2, w)).
  { unfold stringSimilarity_findBestMatch, ret. cbn [map best_scan].
    fold mk. fold (mk n0).
    by destruct (Qgt_bool (rating_of (mk n0)) (rating_of (0, mk n0).2)). }
  destruct (best_scan (map mk rest) 1 (0, mk n0)) as [b rb].
  cbn [fst snd] in *.
  rewrite list_lookup_fmap in Hat.
  destruct ((n0 :: rest) !! b) as [x|] eqn:Hx; [|done].
  cbn in Hat. injection Hat as <-.
  exists b, x. split; [done|]. split; [done|]. split.
  - intros y Hy. apply (Hmax (mk y)). by apply list_elem_of_fmap_2.
  - intros j y Hj Hl. apply (Hfirst j (mk y) Hj). by rewrite list_lookup_fmap, Hl.
Qed.

(** [findBestMatch] with the index of the listing it returns. *)
Lemma findBestMatch_at (q : string) (products : list Listing) (w : World) :
  products <> [] ->
  exists i p,
    findBestMatch env (JStr q) products w = (Ok (Some p), w) /\
    products !! i = Some p /\
    (forall j p', j < i -> products !! j = Some p' ->
       (compareTwoStrings env q (name p') < compareTwoStrings env q (name p))%Q).
Proof.
  intros Hne.
  destruct (stringSimilarity_findBestMatch_first q (map name products) w)
    as (b & x & Hrun & Hat & Hmax & Hfirst).
  { by destruct products. }
  rewrite list_lookup_fmap in Hat.
  destruct (products !! b) as [p|] eqn:Hp; [|done].
  cbn in Hat. injection Hat as <-.
  exists b, p. split; [|split; [done|]].
  - unfold findBestMatch.
    destruct products as [|p0 rest] eqn:Hprod; [done|]. rewrite <- Hprod in *.
    replace (length products =? 0) with false by by rewrite Hprod.
    unfold bind. rewrite Hrun. cbn [target]. unfold ret.
    rewrite (indexOf_first (map name products) b (name p)).
    + unfold array_get. destruct (Z.ltb_spec (Z.of_nat b) 0); [lia|].
      by rewrite Nat2Z.id, Hp.
    + by rewrite list_lookup_fmap, Hp.
    + intros j y Hj Hl Heq. subst y.
      specialize (Hfirst j (name p) Hj Hl). by apply Qlt_irrefl in Hfirst.
  - intros j p' Hj Hl. apply (Hfirst j (name p') Hj). by rewrite list_lookup_fmap, Hl.
Qed.

(** C4, amended. On a non-empty sequence of listings and a term that is a
    string, [findBestMatch] returns a listing of that very sequence, never
    [null], and no listing of the sequence is rated above the one returned,
    whatever the ratings are; on a non-empty sequence and a term that is not
    a string it returns nothing: it throws the error of the similarity
    package; on the empty sequence it returns [null] for any term. *)
Theorem findBestMatch_selects (q : string) (products : list Listing) (w : World) :
  (forall term, findBestMatch env term [] w = (Ok None, w)) /\
  (products <> [] ->
   exists p,
     findBestMatch env (JStr q) products w = (Ok (Some p), w) /\
     p ∈ products /\
     forall p', p' ∈ products ->
       (compareTwoStrings env q (name p') <= compareTwoStrings env q (name p))%Q) /\
  (forall term,
     is_string term = false -> products <> [] ->
     findBestMatch env term products w =
       (Throw (JsError "Bad arguments: First argument should be a string, second should be an array of strings"),
        w)).
Proof.
  split; [done|]. split.
  - intros Hne.
    destruct (stringSimilarity_findBestMatch_first q (map name products) w)
      as (b & x & Hrun & Hat & Hmax & Hfirst).
    { by destruct products. }
    rewrite list_lookup_fmap in Hat.
    destruct (products !! b) as [p|] eqn:Hp; [|done].
    cbn in Hat. injection Hat as <-.
    exists p. split; [|split].
    + unfold findBestMatch.
      destruct products as [|p0 rest] eqn:Hprod; [done|]. rewrite <- Hprod in *.
      replace (length products =? 0) with false by by rewrite Hprod.
      unfold bind. rewrite Hrun. cbn [target]. unfold ret.
      rewrite (indexOf_first (map name products) b (name p)).
      * unfold array_get. destruct (Z.ltb_spec (Z.of_nat b) 0); [lia|].
        by rewrite Nat2Z.id, Hp.
      * by rewrite list_lookup_fmap, Hp.
      * intros j y Hj Hl Heq. subst y.
        specialize (Hfirst j (name p) Hj Hl).
        by apply Qlt_irrefl in Hfirst.
    + by eapply list_elem_of_lookup_2.
    + intros p' Hin. apply Hmax. by apply list_elem_of_fmap_2.
  - intros term Hs Hne. unfold findBestMatch.
    destruct products as [|p0 rest]; [done|]. cbn [length Nat.eqb].
    unfold bind, stringSimilarity_findBestMatch.
    by destruct term.
Qed.

(** *** The derived lists *)

Lemma missingComponents_spec (fetched : list Fetched) (k : string) :
  k ∈ missingComponents fetched <->
  exists f, f ∈ fetched /\ key f = k /\ product f = None.
Proof.
  unfold missingComponents. rewrite list_elem_of_fmap. split.
  - intros (f & -> & Hf). apply list_elem_of_In, filter_In in Hf as [Hin Hnone].
    exists f. split; [by apply list_elem_of_In|]. split; [done|].
    by destruct (product f).
  - intros (f & Hin & <- & Hnone). exists f. split; [done|].
    apply list_elem_of_In, filter_In. split; [by apply list_elem_of_In|].
    by rewrite Hnone.
Qed.

Lemma resolved_entries_get_None (fetched : list Fetched) (k : string) :
  obj_get (resolved_entries fetched) k = None <->
  forall f, f ∈ fetched -> key f = k -> product f = None.
Proof.
  unfold resolved_entries. induction fetched as [|f fs IH]; cbn.
  - split; [|done]. intros _ f Hf. by apply elem_of_nil in Hf.
  - destruct (product f) as [p|] eqn:Hp; cbn.
    + destruct (String.eqb (key f) k) eqn:Heq.
      * apply String.eqb_eq in Heq. split; [done|]. intros Hall.
        rewrite (Hall f) in Hp; [done|by left|done].
      * apply String.eqb_neq in Heq. rewrite IH. split.
        -- intros Hall g [->|Hg]%elem_of_cons Hk; [done|by apply Hall].
        -- intros Hall g Hg. apply Hall. by right.
    + rewrite IH. split.
      * intros Hall g [->|Hg]%elem_of_cons Hk; [done|by apply Hall].
      * intros Hall g Hg. apply Hall. by right.
Qed.

Lemma key_unique (fetched : list Fetched) f g :
  NoDup (map key fetched) -> f ∈ fetched -> g ∈ fetched -> key f = key g -> f = g.
Proof.
  induction fetched as [|h hs IH]; intros Hnd Hf Hg Hk.
  - by apply elem_of_nil in Hf.
  - cbn in Hnd. apply NoDup_cons in Hnd as [Hh Hnd].
    apply elem_of_cons in Hf as [->|Hf]; apply elem_of_cons in Hg as [->|Hg].
    + done.
    + exfalso. apply Hh. rewrite Hk. by apply list_elem_of_fmap_2.
    + exfalso. apply Hh. rewrite <- Hk. by apply list_elem_of_fmap_2.
    + by apply IH.
Qed.

Lemma resolved_keys_fetched (fetched : list Fetched) (k : string) :
  k ∈ (resolved_entries fetched).*1 -> k ∈ map key fetched.
Proof.
  intros (kv & -> & Hin)%list_elem_of_fmap.
  apply list_elem_of_omap in Hin as (f & Hf & Hkv).
  destruct (product f); [|done]. injection Hkv as <-. cbn. by apply list_elem_of_fmap_2.
Qed.

(** C7. The batch over the required categories always returns; what the
    handler derives from it: a category is in [missingComponents] exactly
    when its resolution yielded [null], which is exactly when the category
    has no entry in [productResponse]; [productResponse] holds the resolved
    entries and nothing else, and [totalPrice] is the sum of their prices, in
    the order of the batch. *)
Theorem batch_derivations (components : JsValue) (w : World) :
  exists fetched w',
    mapM (resolve_required env components) requiredComponents w = (Ok fetched, w') /\
    map key fetched = requiredComponents /\
    (forall k, k ∈ missingComponents fetched <->
               exists f, f ∈ fetched /\ key f = k /\ product f = None) /\
    (forall k, k ∈ missingComponents fetched <->
               k ∈ requiredComponents /\ obj_get (productResponse_of fetched) k = None) /\
    productResponse_of fetched = resolved_entries fetched /\
    totalPrice_of (productResponse_of fetched) =
      fold_left PrimFloat.add (map price (omap product fetched)) 0%float.
Proof.
  destruct (initial_batch_total components requiredComponents w)
    as (fetched & w' & Hrun & Hkeys).
  assert (Hnd : NoDup (map key fetched)) by (rewrite Hkeys; apply requiredComponents_NoDup).
  exists fetched, w'. split; [done|]. split; [done|].
  split; [apply missingComponents_spec|].
  rewrite (required_response _ Hkeys).
  split; [|split; [done|]].
  - intros k. rewrite missingComponents_spec, resolved_entries_get_None. split.
    + intros (f & Hf & Hk & Hnone). split.
      * rewrite <- Hkeys, <- Hk. by apply list_elem_of_fmap_2.
      * intros g Hg Hgk. rewrite <- Hk in Hgk.
        by rewrite (key_unique fetched g f Hnd Hg Hf Hgk).
    + intros [Hin Hall]. rewrite <- Hkeys in Hin.
      apply list_elem_of_fmap in Hin as (f & -> & Hf).
      exists f. split; [done|]. split; [done|]. by apply Hall.
  - by rewrite totalPrice_of_prices, resolved_entries_prices.
Qed.

(** *** The early answer and the ADJUSTED call *)

Lemma initial_run_keys req w c components fetched w2 :
  initial_run env req w c components fetched w2 -> map key fetched = requiredComponents.
Proof.
  intros (_ & _ & _ & _ & _ & Hbatch).
  destruct (initial_batch_total components requiredComponents
              (chatted (currentMessages env req) w)) as (fetched' & w' & Hrun & Hkeys).
  rewrite Hrun in Hbatch. by injection Hbatch as -> ->.
Qed.

Lemma bundle_acceptable_true req fetched :
  bundle_acceptable req fetched = true <->
  missingComponents fetched = [] /\
  within_tolerance (totalPrice_of (productResponse_of fetched)) (budget req) = true.
Proof.
  unfold bundle_acceptable, acceptable. rewrite andb_true_iff, Nat.eqb_eq.
  by rewrite length_zero_iff_nil.
Qed.

Lemma initial_run_total req w c components fetched w2 :
  initial_run env req w c components fetched w2 ->
  totalPrice_of (productResponse_of fetched) =
    fold_left PrimFloat.add (map price (omap product fetched)) 0%float.
Proof.
  intros Hrun. rewrite (required_response _ (initial_run_keys _ _ _ _ _ _ Hrun)).
  by rewrite totalPrice_of_prices, resolved_entries_prices.
Qed.

(** C1. Once the initial batch has completed, the handler answers without a
    second call to the provider exactly when no category is missing and
    [Math.abs(total - budget) / budget <= 0.1], where [total] is the sum of
    the prices of the resolved listings; it then sends the text of the first
    completion and the resolved products, in the world the batch left.  For
    a budget of 500000 a total of 540000 passes and a total of 560000 does
    not. *)
Theorem early_answer_iff_acceptable req w c components fetched w2 :
  initial_run env req w c components fetched w2 ->
  let total := fold_left PrimFloat.add (map price (omap product fetched)) 0%float in
  (completions (generate env req w).2 = S (completions w) <->
   missingComponents fetched = [] /\ within_tolerance total (budget req) = true) /\
  (missingComponents fetched = [] /\ within_tolerance total (budget req) = true ->
   generate env req w = (Ok (Send (text c) (resolved_entries fetched)), w2)) /\
  within_tolerance 540000 500000 = true /\
  within_tolerance 560000 500000 = false.
Proof.
  intros Hrun total.
  pose proof (initial_run_total _ _ _ _ _ _ Hrun) as Htotal. fold total in Htotal.
  pose proof (bundle_acceptable_true req fetched) as Hacc. rewrite Htotal in Hacc.
  pose proof (initial_run_completions _ _ _ _ _ _ Hrun) as Hw2.
  rewrite (generate_after_batch _ _ _ _ _ _ Hrun).
  split; [|split; [|by split]].
  - rewrite <- Hacc. destruct (bundle_acceptable req fetched); cbn [snd].
    + by rewrite Hw2.
    + rewrite adjusted_phase_completions, Hw2. split; [lia|done].
  - intros Hok. apply Hacc in Hok. rewrite Hok.
    by rewrite (required_response _ (initial_run_keys _ _ _ _ _ _ Hrun)).
Qed.

(** C2. A request calls the provider once or twice.  It calls it twice exactly
    when the initial batch completed with a bundle that fails the test of the
    early answer; and when the second completion parses and its batch
    completes, the handler sends the second text with the merged products
    whatever the merged bundle adds up to: nothing is tested after the
    merge. *)
Theorem provider_called_at_most_twice req w :
  (completions (generate env req w).2 = completions w + 1 \/
   completions (generate env req w).2 = completions w + 2) /\
  (completions (generate env req w).2 = completions w + 2 <->
   exists c components fetched w2,
     initial_run env req w c components fetched w2 /\
     bundle_acceptable req fetched = false) /\
  (forall c components fetched w2 c2 adjusted adjustedFetched w3,
     initial_run env req w c components fetched w2 ->
     bundle_acceptable req fetched = false ->
     adjusted_run env req fetched w2 c2 adjusted adjustedFetched w3 ->
     generate env req w =
       (Ok (Send (text c2)
              (fold_left assign_product adjustedFetched (productResponse_of fetched))), w3) /\
     completions w3 = completions w + 2).
Proof.
  assert (Hcount : forall c components fetched w2,
            initial_run env req w c components fetched w2 ->
            completions (generate env req w).2 =
              if bundle_acceptable req fetched then completions w + 1 else completions w + 2).
  { intros c components fetched w2 Hrun.
    pose proof (initial_run_completions _ _ _ _ _ _ Hrun) as Hw2.
    rewrite (generate_after_batch _ _ _ _ _ _ Hrun).
    destruct (bundle_acceptable req fetched); cbn [snd].
    - lia.
    - rewrite adjusted_phase_completions. lia. }
  split; [|split].
  - destruct (generate_reaches_batch req w) as [Hfail | (c & components & fetched & w2 & Hrun)].
    + left. rewrite Hfail. cbn. lia.
    + rewrite (Hcount _ _ _ _ Hrun). destruct (bundle_acceptable req fetched); auto.
  - split.
    + intros Htwo.
      destruct (generate_reaches_batch req w) as [Hfail | (c & components & fetched & w2 & Hrun)].
      * rewrite Hfail in Htwo. cbn in Htwo. lia.
      * exists c, components, fetched, w2. split; [done|].
        rewrite (Hcount _ _ _ _ Hrun) in Htwo.
        destruct (bundle_acceptable req fetched); [lia|done].
    + intros (c & components & fetched & w2 & Hrun & Hacc).
      by rewrite (Hcount _ _ _ _ Hrun), Hacc.
  - intros c components fetched w2 c2 adjusted adjustedFetched w3 Hrun Hacc Hadj.
    pose proof (generate_adjusts _ _ _ _ _ _ _ _ _ _ Hrun Hacc Hadj) as Hgen.
    split; [done|].
    pose proof (Hcount _ _ _ _ Hrun) as Hc. rewrite Hacc, Hgen in Hc. done.
Qed.

(** *** The ADJUSTED batch and the merge *)

(** A value that is not a string is not looked up at all. *)
Lemma resolve_adjusted_not_string (k : string) (component : JsValue) (w : World) :
  is_string component = false ->
  resolve_adjusted env (k, component) w = (Ok {| key := k; product := None |}, w).
Proof. intros Hs. unfold resolve_adjusted. by rewrite Hs. Qed.

Lemma resolve_adjusted_shape (entry : string * JsValue) (w : World) :
  exists f,
    (resolve_adjusted env entry w).1 = Ok f /\
    (key f = entry.1 /\ (is_string entry.2 = false -> product f = None)).
Proof.
  destruct (resolve_adjusted_total entry w) as (f & Hf & Hk).
  exists f. split; [done|]. split; [done|]. intros Hs.
  destruct entry as [k component]. cbn in Hs.
  rewrite resolve_adjusted_not_string in Hf by done. by injection Hf as <-.
Qed.

Lemma adjusted_batch_shape (entries : list (string * JsValue)) w adjustedFetched w' :
  mapM (resolve_adjusted env) entries w = (Ok adjustedFetched, w') ->
  Forall2 (fun entry f => key f = entry.1 /\ (is_string entry.2 = false -> product f = None))
    entries adjustedFetched.
Proof.
  intros Hrun.
  destruct (mapM_total (resolve_adjusted env) _ resolve_adjusted_shape entries w)
    as (fs & Hfs & HF).
  rewrite Hrun in Hfs. by injection Hfs as ->.
Qed.

Lemma adjusted_batch_keys (entries : list (string * JsValue)) w adjustedFetched w' :
  mapM (resolve_adjusted env) entries w = (Ok adjustedFetched, w') ->
  map key adjustedFetched = entries.*1.
Proof.
  intros Hrun%adjusted_batch_shape.
  induction Hrun as [|e f es fs [Hk _] _ IH]; [done|]. cbn. by f_equal.
Qed.




(** C10. In the merge of the ADJUSTED phase, a key for which the adjusted
    batch has no result with a product keeps the entry it had: so it is for a
    key whose adjusted values are not strings and for a key that the adjusted
    mapping does not have.  No entry is removed by the merge. *)
Theorem merge_leaves_unresolved_keys (entries : list (string * JsValue)) (w : World)
    (adjustedFetched : list Fetched) (w' : World)
    (productResponse : list (string * Listing)) (k : string) :
  mapM (resolve_adjusted env) entries w = (Ok adjustedFetched, w') ->
  let merged := fold_left assign_product adjustedFetched productResponse in
  ((forall f, f ∈ adjustedFetched -> key f = k -> product f = None) ->
   obj_get merged k = obj_get productResponse k) /\
  ((forall component, (k, component) ∈ entries -> is_string component = false) ->
   obj_get merged k = obj_get productResponse k) /\
  (k ∉ entries.*1 -> obj_get merged k = obj_get productResponse k) /\
  (is_Some (obj_get productResponse k) -> is_Some (obj_get merged k)).
Proof.
  intros Hrun merged.
  pose proof (adjusted_batch_shape _ _ _ _ Hrun) as Hshape.
  assert (Hstr : (forall component, (k, component) ∈ entries -> is_string component = false) ->
                 forall f, f ∈ adjustedFetched -> key f = k -> product f = None).
  { intros Hall f Hf Hk.
    apply list_elem_of_lookup in Hf as [i Hi].
    destruct (Forall2_lookup_r _ _ _ _ _ Hshape Hi) as ([k' component] & He & Hfk & Hnone).
    cbn in Hfk, Hnone. apply Hnone, Hall.
    rewrite <- Hk, Hfk. by eapply list_elem_of_lookup_2. }
  split; [by apply merge_frame|].
  split; [intros Hall; by apply merge_frame, Hstr|].
  split; [|by apply merge_keeps].
  intros Hnot. apply merge_frame, Hstr. intros component Hin.
  exfalso. apply Hnot. by apply (list_elem_of_fmap_2 fst) in Hin.
Qed.

(** *** Fail-soft lookups *)

Lemma fetchProduct_miss term query (w0 w1 : World) :
  NodeCache.get (cacheKey_of env term) w0 = (Ok None, w1) ->
  encodeURIComponent env (ToString env term) = Some query ->
  fetchProduct env term w0 =
    try_catch (fetch_listings env (cacheKey_of env term) query) (fun error => ret []) w1.
Proof.
  intros Hget Henc. unfold fetchProduct, limiter_wrap. unfold bind at 1.
  by rewrite Hget, Henc.
Qed.

(** C5. Whatever is thrown inside the [try] of [fetchProduct] (an error of
    the HTTP client, the exhaustion of the retries, a response that cannot be
    read) becomes the empty sequence.  The callback of either batch never
    throws: when [fetchProduct] or [findBestMatch] throws, or when there is
    no listing, its result for the key is [null].  So both batches always
    complete, with one result per key. *)
Theorem lookup_errors_absorbed (components : JsValue) (w : World) :
  (forall term query w0 w1 e w2,
     NodeCache.get (cacheKey_of env term) w0 = (Ok None, w1) ->
     encodeURIComponent env (ToString env term) = Some query ->
     fetch_listings env (cacheKey_of env term) query w1 = (Throw e, w2) ->
     fetchProduct env term w0 = (Ok [], w2)) /\
  (forall term query w0 w1 e w2,
     NodeCache.get (cacheKey_of env term) w0 = (Ok None, w1) ->
     encodeURIComponent env (ToString env term) = Some query ->
     fetchWithRetry env (search_url query) (search_headers query)
       default_maxRetries default_baseDelay w1 = (Throw e, w2) ->
     fetchProduct env term w0 = (Ok [], w2)) /\
  (forall term query w0 w1,
     NodeCache.get (cacheKey_of env term) w0 = (Ok None, w1) ->
     encodeURIComponent env (ToString env term) = Some query ->
     (forall j, j < default_maxRetries ->
        axios_get_outcome env (requests w1 + j) (search_url query) (search_headers query) =
          AxiosFail (Some 429%Z)) ->
     fetchProduct env term w0 =
       (Ok [], after_attempts (search_url query) default_baseDelay 0 default_maxRetries false w1)) /\
  (forall k w0,
     exists p w1,
       resolve_required env components k w0 = (Ok {| key := k; product := p |}, w1) /\
       (forall e w', fetchProduct env (js_get components k) w0 = (Throw e, w') -> p = None) /\
       (forall w', fetchProduct env (js_get components k) w0 = (Ok [], w') -> p = None) /\
       (forall products e w' w'',
          fetchProduct env (js_get components k) w0 = (Ok products, w') ->
          findBestMatch env (js_get components k) products w' = (Throw e, w'') -> p = None)) /\
  (exists fetched w',
     mapM (resolve_required env components) requiredComponents w = (Ok fetched, w') /\
     map key fetched = requiredComponents) /\
  (forall entries w0,
     exists fetched w',
       mapM (resolve_adjusted env) entries w0 = (Ok fetched, w') /\
       map key fetched = entries.*1).
Proof.
  assert (Hfetch : forall term query w0 w1 e w2,
     NodeCache.get (cacheKey_of env term) w0 = (Ok None, w1) ->
     encodeURIComponent env (ToString env term) = Some query ->
     fetchWithRetry env (search_url query) (search_headers query)
       default_maxRetries default_baseDelay w1 = (Throw e, w2) ->
     fetchProduct env term w0 = (Ok [], w2)).
  { intros term query w0 w1 e w2 Hget Henc Hthrow.
    rewrite (fetchProduct_miss _ _ _ _ Hget Henc).
    unfold try_catch, fetch_listings, bind. by rewrite Hthrow. }
  split; [|split; [done|split; [|split; [|split]]]].
  - intros term query w0 w1 e w2 Hget Henc Hthrow.
    rewrite (fetchProduct_miss _ _ _ _ Hget Henc).
    unfold try_catch. by rewrite Hthrow.
  - intros term query w0 w1 Hget Henc Hthr.
    apply (Hfetch term query w0 w1 (JsError "Max retries reached") _ Hget Henc).
    unfold fetchWithRetry.
    by rewrite (fetchWithRetry_loop_spec _ _ _ default_maxRetries)
      by (try done; unfold default_maxRetries; lia).
  - intros k w0. unfold resolve_required, try_catch, bind.
    set (component := js_get components k).
    destruct (fetchProduct env component w0) as [[products|e] w1] eqn:Hfp.
    + destruct (findBestMatch env component products w1) as [[best|e] w2] eqn:Hbm.
      * exists best, w2. split; [done|]. split; [done|]. split.
        -- intros w' Heq. injection Heq as -> ->. unfold findBestMatch in Hbm.
           cbn in Hbm. unfold ret in Hbm. congruence.
        -- intros products' e w' w'' Heq. injection Heq as <- <-. congruence.
      * exists None, w2. by repeat split.
    + exists None, w1. by repeat split.
  - apply initial_batch_total.
  - apply adjusted_batch_total.
Qed.

(** *** The cache *)

Lemma NodeCache_get_live (k : string) (e : CacheEntry) (w : World) :
  cache w !! k = Some e -> (now w <= t e)%Z ->
  NodeCache.get k w = (Ok (Some (v e)), w).
Proof.
  intros He Hlive. unfold NodeCache.get, NodeCache.expired. rewrite He.
  by destruct (Z.ltb_spec (t e) (now w)); [lia|].
Qed.

Lemma NodeCache_get_expired (k : string) (e : CacheEntry) (w : World) :
  cache w !! k = Some e -> (t e < now w)%Z ->
  (NodeCache.get k w).1 = Ok None /\ cache (NodeCache.get k w).2 !! k = None.
Proof.
  intros He Hdead. unfold NodeCache.get, NodeCache.expired. rewrite He.
  destruct (Z.ltb_spec (t e) (now w)); [|lia]. cbn. by rewrite lookup_delete_eq.
Qed.

Lemma fetchProduct_hit term found (w : World) :
  (NodeCache.get (cacheKey_of env term) w).1 = Ok (Some found) ->
  fetchProduct env term w = (Ok found, w).
Proof.
  intros Hget. unfold fetchProduct, limiter_wrap. unfold bind at 1.
  unfold NodeCache.get in *.
  destruct (cache w !! cacheKey_of env term) as [e|]; [|done].
  destruct (NodeCache.expired e (now w)); [done|].
  cbn in Hget. by injection Hget as ->.
Qed.

(** C9. A sequence stored under the key of a term is what [get] returns for
    that term as long as the clock is within 3600 seconds of the insertion,
    and the entry is absent once the clock is past that; on a hit
    [fetchProduct] returns the stored sequence and leaves the world as it is
    (no request is issued); and [fetchProduct] writes to the cache only the
    listings projected from a response that the fetcher returned with a JSON
    content type. *)
Theorem cache_serves_until_ttl (term : JsValue) (products : list Listing) (w : World) :
  let k := cacheKey_of env term in
  let stored := (NodeCache.set k products w).2 in
  (forall w',
     cache w' !! k = cache stored !! k -> (now w' <= now w + 3600 * 1000)%Z ->
     NodeCache.get k w' = (Ok (Some products), w') /\
     fetchProduct env term w' = (Ok products, w')) /\
  (forall w',
     cache w' !! k = cache stored !! k -> (now w + 3600 * 1000 < now w')%Z ->
     (NodeCache.get k w').1 = Ok None /\ cache (NodeCache.get k w').2 !! k = None) /\
  (forall w0 found,
     (NodeCache.get k w0).1 = Ok (Some found) -> fetchProduct env term w0 = (Ok found, w0)) /\
  (forall w0,
     cache (fetchProduct env term w0).2 = cache (NodeCache.get k w0).2 \/
     exists query response ct cs listed w1,
       encodeURIComponent env (ToString env term) = Some query /\
       fetchWithRetry env (search_url query) (search_headers query)
         default_maxRetries default_baseDelay (NodeCache.get k w0).2 = (Ok response, w1) /\
       content_type response = Some ct /\
       String_includes ct "application/json" = true /\
       cards response = Some cs /\
       mapM project_card cs w1 = (Ok listed, w1) /\
       fetchProduct env term w0 = (Ok listed, (NodeCache.set k listed w1).2)).
Proof.
  intros k stored.
  assert (Hstored : cache stored !! k =
                    Some {| v := products; t := (now w + NodeCache.stdTTL * 1000)%Z |}).
  { unfold stored, NodeCache.set. cbn. by rewrite lookup_insert_eq. }
  split; [|split; [|split]].
  - intros w' Hsame Hnow. rewrite Hstored in Hsame.
    pose proof (NodeCache_get_live k _ w' Hsame Hnow) as Hget. cbn in Hget.
    split; [done|]. apply fetchProduct_hit. fold k. by rewrite Hget.
  - intros w' Hsame Hnow. rewrite Hstored in Hsame.
    by apply (NodeCache_get_expired k _ w' Hsame).
  - intros w0 found. apply fetchProduct_hit.
  - intros w0. unfold fetchProduct, limiter_wrap, bind. fold k.
    destruct (NodeCache.get k w0) as [[[found|]|e] w1] eqn:Hget; cbn [snd]; [by left| |by left].
    destruct (encodeURIComponent env (ToString env term)) as [query|] eqn:Henc; [|by left].
    unfold try_catch, fetch_listings, bind.
    pose proof (fetchWithRetry_loop_keeps_cache (search_url query) (search_headers query)
                  default_baseDelay default_maxRetries 0 w1) as Hkeep.
    fold (fetchWithRetry env (search_url query) (search_headers query)
            default_maxRetries default_baseDelay) in Hkeep.
    destruct (fetchWithRetry env _ _ _ _ w1) as [[response|e] w2] eqn:Hfetch;
      cbn [snd] in Hkeep; [|by left].
    destruct (content_type response) as [ct|] eqn:Hct; [|by left].
    destruct (String_includes ct "application/json") eqn:Hjson; [|by left].
    destruct (cards response) as [cs|] eqn:Hcards; [|by left].
    pose proof (mapM_project_card_pure cs w2) as Hpure.
    destruct (mapM project_card cs w2) as [[listed|e] w3] eqn:Hproj;
      cbn [snd] in Hpure; subst w3; [|by left].
    right. by exists query, response, ct, cs, listed, w2.
Qed.

(** *** Failures of the generation *)

Lemma Array_includes_spec (array : list string) (x : string) :
  Array_includes array x = true <-> x ∈ array.
Proof.
  unfold Array_includes. rewrite existsb_exists. split.
  - intros (y & Hin & ->%String.eqb_eq). by apply list_elem_of_In.
  - intros Hin. exists x. split; [by apply list_elem_of_In | apply String.eqb_refl].
Qed.

Lemma required_keys_spec (keys : list string) :
  forallb (fun comp => Array_includes keys comp) requiredComponents = true <->
  forall k, k ∈ requiredComponents -> k ∈ keys.
Proof.
  rewrite forallb_forall. split.
  - intros Hall k Hk. apply Array_includes_spec, Hall. by apply list_elem_of_In.
  - intros Hall k Hk. apply Array_includes_spec, Hall. by apply list_elem_of_In.
Qed.

(** C8, amended. The handler answers with the internal error, having called
    the provider once and nothing else, when the first completion is not
    JSON and when the value parsed from it lacks one of the eight required
    keys; it answers with the internal error, having called the provider a
    second time and not again, when the second completion is not JSON.  A
    value that has the eight required keys, with or without further keys,
    takes the request to the end of the initial batch. *)
Theorem generation_failures_are_fatal req w :
  (forall c,
     chat_outcome env (completions w) (currentMessages env req) = Ok c ->
     json c = None ->
     generate env req w = (Ok InternalServerError, chatted (currentMessages env req) w)) /\
  (forall c components k,
     chat_outcome env (completions w) (currentMessages env req) = Ok c ->
     json c = Some components ->
     k ∈ requiredComponents -> k ∉ (own_properties components).*1 ->
     generate env req w = (Ok InternalServerError, chatted (currentMessages env req) w)) /\
  (forall c components fetched w2 c2,
     initial_run env req w c components fetched w2 ->
     bundle_acceptable req fetched = false ->
     chat_outcome env (completions w2) (adjustment_of env req fetched) = Ok c2 ->
     json c2 = None ->
     generate env req w =
       (Ok InternalServerError, chatted (adjustment_of env req fetched) w2)) /\
  (forall c props,
     chat_outcome env (completions w) (currentMessages env req) = Ok c ->
     json c = Some (JObj props) ->
     (forall k, k ∈ requiredComponents -> k ∈ props.*1) ->
     exists fetched w2, initial_run env req w c (JObj props) fetched w2).
Proof.
  split; [|split; [|split]].
  - intros c Hchat Hjson.
    unfold generate. unfold try_catch at 1. unfold bind at 1.
    rewrite chat_completions_create_run, Hchat.
    unfold bind at 1. unfold try_catch at 1. unfold JSON_parse at 1.
    by rewrite Hjson.
  - intros c components k Hchat Hjson Hreq Hnot.
    destruct (generate_reaches_batch req w)
      as [Hfail | (c' & components' & fetched & w2 & Hrun)]; [done|].
    destruct Hrun as (Hchat' & Hjson' & _ & _ & Hvalid & _).
    rewrite Hchat in Hchat'. injection Hchat' as <-.
    rewrite Hjson in Hjson'. injection Hjson' as <-.
    exfalso. apply Hnot. by apply (proj1 (required_keys_spec _) Hvalid).
  - intros c components fetched w2 c2 Hrun Hacc Hchat Hjson.
    rewrite (generate_after_batch _ _ _ _ _ _ Hrun), Hacc.
    unfold adjusted_phase. unfold try_catch at 1. unfold bind at 1.
    rewrite chat_completions_create_run, Hchat.
    unfold try_catch at 1. unfold bind at 1. unfold JSON_parse at 1.
    by rewrite Hjson.
  - intros c props Hchat Hjson Hall.
    destruct (initial_batch_total (JObj props) requiredComponents
                (chatted (currentMessages env req) w)) as (fetched & w2 & Hbatch & _).
    exists fetched, w2. repeat split; try done.
    by apply required_keys_spec.
Qed.

(** C6. [fetchWithRetry] goes on only while the marketplace answers 429: after
    [k] throttled attempts it has slept [baseDelay * 2^0, ..., baseDelay *
    2^(k-1)]; the first other outcome ends it at once, returned when it is a
    response and thrown again when it is an error; after [maxRetries]
    throttled attempts it throws "Max retries reached".  With the default
    five attempts, three throttling responses and then a response are four
    requests and the delays [baseDelay], [2 * baseDelay], [4 * baseDelay]. *)
Theorem fetchWithRetry_backoff url headers maxRetries baseDelay w :
  (forall k,
     k <= maxRetries ->
     (forall j, j < k ->
        axios_get_outcome env (requests w + j) url headers = AxiosFail (Some 429%Z)) ->
     (k < maxRetries ->
        is_throttle (axios_get_outcome env (requests w + k) url headers) = false) ->
     fetchWithRetry env url headers maxRetries baseDelay w =
       (if k <? maxRetries
        then outcome_result (axios_get_outcome env (requests w + k) url headers)
        else Throw (JsError "Max retries reached"),
        after_attempts url baseDelay 0 k (k <? maxRetries) w)) /\
  (forall r,
     (forall j, j < 3 ->
        axios_get_outcome env (requests w + j) url headers = AxiosFail (Some 429%Z)) ->
     axios_get_outcome env (requests w + 3) url headers = AxiosOk r ->
     let out := fetchWithRetry env url headers default_maxRetries baseDelay w in
     out.1 = Ok r /\
     requests out.2 = requests w + 4 /\
     delays_of (trace out.2) =
       delays_of (trace w) ++ [baseDelay; 2 * baseDelay; 4 * baseDelay]%Z).
Proof.
  split.
  - intros k Hle Hthr Hlast. unfold fetchWithRetry.
    by apply fetchWithRetry_loop_spec.
  - intros r Hthr Hok. unfold fetchWithRetry, default_maxRetries.
    rewrite (fetchWithRetry_loop_spec url headers baseDelay 3); [|lia|done|by rewrite Hok].
    rewrite Hok. cbn. split; [done|]. split; [lia|].
    unfold delays_of. rewrite !flat_map_app. cbn.
    f_equal. change (2 ^ Z.of_nat 0)%Z with 1%Z. change (2 ^ Z.of_nat 1)%Z with 2%Z.
    change (2 ^ Z.of_nat 2)%Z with 4%Z. repeat (f_equal; try lia).
Qed.

(** ** Further properties of the code *)

(** *** How a computation moves the world *)

Ltac advances_counters :=
  unfold advances; cbn; split; [lia|split; [lia|split; [lia|]]].

Lemma advances_refl P (w : World) : advances P w w.
Proof. advances_counters. exists []. by rewrite app_nil_r. Qed.

Lemma advances_trans P (w1 w2 w3 : World) :
  advances P w1 w2 -> advances P w2 w3 -> advances P w1 w3.
Proof.
  intros (Hn1 & Hr1 & Hc1 & ev1 & Ht1 & HP1) (Hn2 & Hr2 & Hc2 & ev2 & Ht2 & HP2).
  advances_counters. exists (ev1 ++ ev2). split.
  - by rewrite Ht2, Ht1, app_assoc.
  - by apply Forall_app.
Qed.

Lemma advancing_bind P {A B} (m : M A) (k : A -> M B) :
  advancing P m -> (forall a, advancing P (k a)) -> advancing P (bind m k).
Proof.
  intros Hm Hk w. unfold bind. specialize (Hm w).
  destruct (m w) as [[a|e] w']; cbn in *; [|done].
  eapply advances_trans; [exact Hm | apply Hk].
Qed.

Lemma advancing_try P {A} (m : M A) (h : Error -> M A) :
  advancing P m -> (forall e, advancing P (h e)) -> advancing P (try_catch m h).
Proof.
  intros Hm Hh w. unfold try_catch. specialize (Hm w).
  destruct (m w) as [[a|e] w']; cbn in *; [done|].
  eapply advances_trans; [exact Hm | apply Hh].
Qed.

Lemma advancing_ret P {A} (a : A) : advancing P (ret a).
Proof. intros w. apply advances_refl. Qed.

Lemma advancing_throw P {A} (e : Error) : advancing P (@throw A e).
Proof. intros w. apply advances_refl. Qed.

Lemma advancing_mapM P {A B} (f : A -> M B) (xs : list A) :
  (forall x, advancing P (f x)) -> advancing P (mapM f xs).
Proof.
  intros Hf. induction xs as [|x xs IH]; [apply advancing_ret|]. cbn [mapM].
  apply advancing_bind; [done|]. intros y.
  apply advancing_bind; [done|]. intros ys. apply advancing_ret.
Qed.

Lemma advancing_sleep (P : Event -> Prop) (delay : Z) :
  (0 <= delay)%Z -> P (EvDelay delay) -> advancing P (sleep delay).
Proof.
  intros Hd HP w. unfold sleep. advances_counters.
  exists [EvDelay delay]. split; [done|]. by constructor.
Qed.

Lemma advancing_axios_get (P : Event -> Prop) url headers :
  P (EvGet url) -> advancing P (axios_get env url headers).
Proof.
  intros HP w. unfold axios_get.
  assert (advances P w {| now := now w; cache := cache w; requests := S (requests w);
                          completions := completions w; trace := trace w ++ [EvGet url] |}).
  { advances_counters. exists [EvGet url]. split; [done|]. by constructor. }
  by destruct (axios_get_outcome env _ _ _).
Qed.

Lemma advancing_fetchWithRetry_loop (P : Event -> Prop) url headers baseDelay left :
  (0 <= baseDelay)%Z ->
  P (EvGet url) ->
  forall i,
    (forall j, i <= j < i + left -> P (EvDelay (baseDelay * 2 ^ Z.of_nat j))) ->
    advancing P (fetchWithRetry_loop env url headers baseDelay left i).
Proof.
  intros Hbase Hget. induction left as [|left IH]; intros i Hdelay.
  - apply advancing_throw.
  - cbn [fetchWithRetry_loop]. apply advancing_try; [by apply advancing_axios_get|].
    intros e. destruct (is_429 e); [|apply advancing_throw].
    apply advancing_bind.
    + apply advancing_sleep; [|apply Hdelay; lia].
      apply Z.mul_nonneg_nonneg; [done|]. apply Z.pow_nonneg. lia.
    + intros _. apply IH. intros j Hj. apply Hdelay. lia.
Qed.

Lemma advancing_NodeCache_get P k : advancing P (NodeCache.get k).
Proof.
  intros w. unfold NodeCache.get. destruct (cache w !! k) as [e|]; [|apply advances_refl].
  destruct (NodeCache.expired e (now w)); [|apply advances_refl].
  advances_counters. exists []. by rewrite app_nil_r.
Qed.

Lemma advancing_NodeCache_set P k value : advancing P (NodeCache.set k value).
Proof.
  intros w. advances_counters. exists []. by rewrite app_nil_r.
Qed.

Lemma advancing_pure P {A} (m : M A) :
  (forall w, (m w).2 = w) -> advancing P m.
Proof. intros Hm w. rewrite Hm. apply advances_refl. Qed.

Lemma advancing_fetchProduct term : advancing allowed_event (fetchProduct env term).
Proof.
  unfold fetchProduct, limiter_wrap.
  apply advancing_bind; [apply advancing_NodeCache_get|].
  intros [products|]; [apply advancing_ret|].
  destruct (encodeURIComponent env _) as [query|]; [|apply advancing_throw].
  apply advancing_try; [|intros; apply advancing_ret].
  unfold fetch_listings. apply advancing_bind.
  { apply advancing_fetchWithRetry_loop.
    - done.
    - right. right. by exists query.
    - intros j Hj. right. left. exists j. split; [lia|done]. }
  intros r. destruct (content_type r) as [ct|]; [|apply advancing_throw].
  destruct (String_includes ct _); [|apply advancing_ret].
  destruct (cards r) as [cs|]; [|apply advancing_throw].
  apply advancing_bind; [apply advancing_pure, mapM_project_card_pure|].
  intros products. apply advancing_bind; [apply advancing_NodeCache_set|].
  intros _. apply advancing_ret.
Qed.

Lemma advancing_guarded_resolution (k : string) (component : JsValue) :
  advancing allowed_event
    (try_catch
       (products <- fetchProduct env component ;;
        bestMatchProduct <- findBestMatch env component products ;;
        ret {| key := k; product := bestMatchProduct |})
       (fun err => ret {| key := k; product := None |})).
Proof.
  apply advancing_try; [|intros; apply advancing_ret].
  apply advancing_bind; [apply advancing_fetchProduct|].
  intros products. apply advancing_bind; [|intros; apply advancing_ret].
  apply advancing_pure, findBestMatch_pure.
Qed.

Lemma advancing_resolve_adjusted entry :
  advancing allowed_event (resolve_adjusted env entry).
Proof.
  destruct entry as [k component]. unfold resolve_adjusted.
  destruct (is_string component); [|apply advancing_ret].
  apply advancing_guarded_resolution.
Qed.

Lemma advancing_chat messages :
  advancing allowed_event (chat_completions_create env messages).
Proof.
  intros w. rewrite chat_completions_create_run. advances_counters.
  exists [EvChat messages]. split; [done|]. constructor; [|done]. left. by exists messages.
Qed.

Lemma advancing_Object_entries P value : advancing P (Object_entries value).
Proof. apply advancing_pure. intros w. by destruct value. Qed.

Lemma advancing_JSON_parse P c : advancing P (JSON_parse c).
Proof. apply advancing_pure. intros w. unfold JSON_parse. by destruct (json c). Qed.

(** X1. Whatever the provider and the marketplace do, the handler answers:
    no exception leaves it.  Its first outbound call is the call to the
    provider with the messages built from the request, and everything it
    does after that is a call to the provider, a request to the search
    endpoint of the marketplace or one of the five backoff delays; the clock
    and the counters never go back. *)
Theorem generate_always_answers req w :
  (exists answer, (generate env req w).1 = Ok answer) /\
  advances allowed_event (chatted (currentMessages env req) w) (generate env req w).2.
Proof.
  destruct (generate env req w) as [r wf] eqn:Hgen. cbn [fst snd].
  unfold generate in Hgen. unfold try_catch at 1 in Hgen. unfold bind at 1 in Hgen.
  rewrite chat_completions_create_run in Hgen.
  destruct (chat_outcome env (completions w) (currentMessages env req)) as [c|e].
  2: { injection Hgen as <- <-. split; [by exists InternalServerError | apply advances_refl]. }
  match type of Hgen with
  | context [let (r, w') := ?k (chatted ?m w) in _] =>
      assert (Hadv : advancing allowed_event k)
  end.
  { apply advancing_bind.
    { apply advancing_try; [apply advancing_JSON_parse | intros; apply advancing_throw]. }
    intros components. apply advancing_bind.
    { unfold Object_keys. apply advancing_bind; [apply advancing_Object_entries|].
      intros; apply advancing_ret. }
    intros keys. destruct (negb _); [apply advancing_throw|].
    apply advancing_bind.
    { apply advancing_mapM. intros k. apply advancing_guarded_resolution. }
    intros fetched. destruct (acceptable _ _ _); [apply advancing_ret|].
    apply advancing_bind; [apply advancing_chat|].
    intros c2. apply advancing_try; [|intros; apply advancing_ret].
    apply advancing_bind; [apply advancing_JSON_parse|].
    intros adjusted. apply advancing_bind; [apply advancing_Object_entries|].
    intros entries. apply advancing_bind; [|intros; apply advancing_ret].
    apply advancing_mapM, advancing_resolve_adjusted. }
  match type of Hgen with
  | context [let (r, w') := ?k (chatted ?m w) in _] =>
      specialize (Hadv (chatted m w)); destruct (k (chatted m w)) as [[answer|e] w']
  end; cbn in Hadv; injection Hgen as <- <-.
  - split; [by exists answer | done].
  - split; [by exists InternalServerError | done].
Qed.

(** *** The fetcher, whatever the marketplace answers *)

Lemma fetchWithRetry_loop_bounds url headers baseDelay left :
  (0 <= baseDelay)%Z ->
  forall i w,
    let w' := (fetchWithRetry_loop env url headers baseDelay left i w).2 in
    requests w <= requests w' <= requests w + left /\
    (0 < left -> requests w < requests w') /\
    (now w' <= now w + baseDelay * (2 ^ Z.of_nat (i + left) - 2 ^ Z.of_nat i))%Z.
Proof.
  intros Hbase. induction left as [|left IH]; intros i w.
  - cbn [fetchWithRetry_loop]. unfold throw. cbn [snd].
    rewrite !Nat.add_0_r, Z.sub_diag, Z.mul_0_r. split; [lia|]. split; lia.
  - cbn [fetchWithRetry_loop]. unfold try_catch, axios_get.
    assert (Hpow : (2 ^ Z.of_nat (i + S left) - 2 ^ Z.of_nat i =
                    2 ^ Z.of_nat i + (2 ^ Z.of_nat (S i + left) - 2 ^ Z.of_nat (S i)))%Z).
    { replace (i + S left) with (S i + left) by lia.
      rewrite (Nat2Z.inj_succ i), Z.pow_succ_r by lia.
      replace (Z.of_nat (S i + left)) with (Z.succ (Z.of_nat (i + left))) by lia.
      rewrite Z.pow_succ_r by lia. rewrite Nat2Z.inj_add, Z.pow_add_r by lia.
      lia. }
    assert (Hmono : (2 ^ Z.of_nat i <= 2 ^ Z.of_nat (i + S left))%Z)
      by (apply Z.pow_le_mono_r; lia).
    destruct (axios_get_outcome env (requests w) url headers) as [r|s]; cbn [fst snd].
    + cbn. split; [lia|]. split; [lia|]. nia.
    + destruct (is_429 (AxiosError s)).
      * unfold bind, sleep. cbn [fst snd].
        match goal with
        | |- context [fetchWithRetry_loop env url headers baseDelay left (S i) ?w1] =>
            set (wn := w1)
        end.
        specialize (IH (S i) wn).
        change (now wn) with (now w + baseDelay * 2 ^ Z.of_nat i)%Z in IH.
        change (requests wn) with (S (requests w)) in IH.
        destruct (fetchWithRetry_loop env url headers baseDelay left (S i) wn) as [out wf].
        cbn [snd] in *. destruct IH as (Hreq & _ & Hnow).
        split; [lia|]. split; [lia|]. rewrite Hpow. nia.
      * cbn. split; [lia|]. split; [lia|]. nia.
Qed.

(** X2. With a delay that is not negative, [fetchWithRetry] issues at least
    one and at most [maxRetries] requests, and it never sleeps more than
    [baseDelay * (2^maxRetries - 1)] in all: with the defaults, at most five
    requests and 155 seconds.  The clock does not go back, and neither the
    cache nor the count of provider calls changes. *)
Theorem fetchWithRetry_bounded url headers maxRetries baseDelay w :
  (0 <= baseDelay)%Z ->
  let w' := (fetchWithRetry env url headers maxRetries baseDelay w).2 in
  requests w <= requests w' <= requests w + maxRetries /\
  (0 < maxRetries -> requests w < requests w') /\
  (now w <= now w' <= now w + baseDelay * (2 ^ Z.of_nat maxRetries - 1))%Z /\
  cache w' = cache w /\
  completions w' = completions w.
Proof.
  intros Hbase w'. unfold w', fetchWithRetry.
  destruct (fetchWithRetry_loop_bounds url headers baseDelay maxRetries Hbase 0 w)
    as (Hreq & Hone & Hnow).
  split; [done|]. split; [done|]. split; [split|].
  - by apply (advancing_fetchWithRetry_loop (fun _ => True) url headers baseDelay maxRetries).
  - by cbn in Hnow.
  - split.
    + apply fetchWithRetry_loop_keeps_cache.
    + apply fetchWithRetry_loop_keeps_completions.
Qed.

Lemma fetchWithRetry_loop_outcome url headers baseDelay left :
  forall i w,
    match fetchWithRetry_loop env url headers baseDelay left i w with
    | (Ok r, w') =>
        exists n, requests w' = S n /\ requests w <= n /\
                  axios_get_outcome env n url headers = AxiosOk r
    | (Throw e, w') =>
        is_429 e = false /\
        (e = JsError "Max retries reached" /\ requests w' = requests w + left \/
         exists n s, requests w' = S n /\ requests w <= n /\
                     axios_get_outcome env n url headers = AxiosFail s /\
                     e = AxiosError s)
    end.
Proof.
  induction left as [|left IH]; intros i w.
  - cbn. split; [done|]. left. split; [done|lia].
  - cbn [fetchWithRetry_loop]. unfold try_catch, axios_get.
    destruct (axios_get_outcome env (requests w) url headers) as [r|s] eqn:Hout.
    + exists (requests w). by repeat split.
    + destruct (is_429 (AxiosError s)) eqn:H429.
      * unfold bind at 1, sleep at 1.
        match goal with
        | |- context [fetchWithRetry_loop env url headers baseDelay left (S i) ?w1] =>
            specialize (IH (S i) w1);
            destruct (fetchWithRetry_loop env url headers baseDelay left (S i) w1)
              as [[r|e] w']
        end; cbn [requests] in IH.
        -- destruct IH as (n & Hn & Hle & Hok). exists n. split; [done|]. split; [lia|done].
        -- destruct IH as (Hnot & [[-> Hreq] | (n & s' & Hn & Hle & Hfail & ->)]).
           ++ split; [done|]. left. split; [done|lia].
           ++ split; [done|]. right. exists n, s'. split; [done|]. split; [lia|done].
      * split; [done|]. right. exists (requests w), s. by repeat split.
Qed.

(** X3. What [fetchWithRetry] hands back is what the marketplace last
    answered: a response it returns is the response of its last request, and
    an error it throws is never a 429: it is "Max retries reached", after
    exactly [maxRetries] requests, or the error of its last request. *)
Theorem fetchWithRetry_outcome url headers maxRetries baseDelay w :
  match fetchWithRetry env url headers maxRetries baseDelay w with
  | (Ok r, w') =>
      exists n, requests w' = S n /\ requests w <= n /\
                axios_get_outcome env n url headers = AxiosOk r
  | (Throw e, w') =>
      is_429 e = false /\
      (e = JsError "Max retries reached" /\ requests w' = requests w + maxRetries \/
       exists n s, requests w' = S n /\ requests w <= n /\
                   axios_get_outcome env n url headers = AxiosFail s /\
                   e = AxiosError s)
  end.
Proof. apply fetchWithRetry_loop_outcome. Qed.

(** *** How many requests a lookup, a batch and a request issue *)

Lemma requests_within_bind {A B} a b (m : M A) (k : A -> M B) :
  requests_within a m -> (forall x, requests_within b (k x)) ->
  requests_within (a + b) (bind m k).
Proof.
  intros Hm Hk w. unfold bind. specialize (Hm w).
  destruct (m w) as [[x|e] w']; cbn in *; [|lia].
  specialize (Hk x w'). lia.
Qed.

Lemma requests_within_try {A} a (m : M A) (h : Error -> M A) :
  requests_within a m -> (forall e, requests_within 0 (h e)) ->
  requests_within a (try_catch m h).
Proof.
  intros Hm Hh w. unfold try_catch. specialize (Hm w).
  destruct (m w) as [[x|e] w']; cbn in *; [lia|].
  specialize (Hh e w'). lia.
Qed.

Lemma requests_within_pure {A} n (m : M A) :
  (forall w, requests (m w).2 = requests w) -> requests_within n m.
Proof. intros Hm w. rewrite Hm. lia. Qed.

Lemma requests_within_weaken {A} a b (m : M A) :
  a <= b -> requests_within a m -> requests_within b m.
Proof. intros Hab Hm w. specialize (Hm w). lia. Qed.

Lemma fetchProduct_requests term :
  requests_within default_maxRetries (fetchProduct env term).
Proof.
  unfold fetchProduct, limiter_wrap.
  apply (requests_within_bind 0 default_maxRetries).
  { apply requests_within_pure. intros w. unfold NodeCache.get.
    destruct (cache w !! _) as [e|]; [|done]. by destruct (NodeCache.expired e (now w)). }
  intros [products|]; [by apply requests_within_pure|].
  destruct (encodeURIComponent env _) as [query|]; [|intros w; cbn; lia].
  apply requests_within_try; [|intros; by apply requests_within_pure].
  unfold fetch_listings.
  apply (requests_within_weaken (default_maxRetries + 0)); [lia|].
  apply requests_within_bind.
  { intros w.
    by destruct (fetchWithRetry_loop_bounds (search_url query) (search_headers query)
                   default_baseDelay default_maxRetries ltac:(done) 0 w) as ([_ H] & _). }
  intros r. destruct (content_type r) as [ct|]; [|by apply requests_within_pure].
  destruct (String_includes ct _); [|by apply requests_within_pure].
  destruct (cards r) as [cs|]; [|by apply requests_within_pure].
  apply (requests_within_bind 0 0).
  { apply requests_within_pure. intros w. by rewrite mapM_project_card_pure. }
  intros products.
  apply (requests_within_bind 0 0); [by apply requests_within_pure|].
  intros; by apply requests_within_pure.
Qed.

Lemma guarded_resolution_requests (k : string) (component : JsValue) :
  requests_within default_maxRetries
    (try_catch
       (products <- fetchProduct env component ;;
        bestMatchProduct <- findBestMatch env component products ;;
        ret {| key := k; product := bestMatchProduct |})
       (fun err => ret {| key := k; product := None |})).
Proof.
  apply requests_within_try; [|intros; by apply requests_within_pure].
  apply (requests_within_weaken (default_maxRetries + (0 + 0))); [lia|].
  apply requests_within_bind; [apply fetchProduct_requests|].
  intros products. apply requests_within_bind; [|intros; by apply requests_within_pure].
  apply requests_within_pure. intros w. by rewrite findBestMatch_pure.
Qed.

Lemma initial_batch_requests components (keys : list string) :
  requests_within (default_maxRetries * length keys)
    (mapM (resolve_required env components) keys).
Proof.
  induction keys as [|k keys IH]; [by apply requests_within_pure|].
  cbn [mapM length].
  apply (requests_within_weaken
           (default_maxRetries + (default_maxRetries * length keys + 0))); [lia|].
  apply requests_within_bind; [apply guarded_resolution_requests|].
  intros f. apply requests_within_bind; [done|]. intros; by apply requests_within_pure.
Qed.

Lemma adjusted_batch_requests (entries : list (string * JsValue)) :
  requests_within (default_maxRetries * length (string_entries entries))
    (mapM (resolve_adjusted env) entries).
Proof.
  induction entries as [|[k component] entries IH]; [by apply requests_within_pure|].
  cbn [mapM]. unfold string_entries. cbn [List.filter snd].
  destruct (is_string component) eqn:Hs.
  - cbn [length].
    apply (requests_within_weaken
             (default_maxRetries + (default_maxRetries * length (string_entries entries) + 0)));
      [unfold string_entries; lia|].
    apply requests_within_bind.
    { unfold resolve_adjusted. rewrite Hs. apply guarded_resolution_requests. }
    intros f. apply requests_within_bind; [done|]. intros; by apply requests_within_pure.
  - apply (requests_within_weaken
             (0 + (default_maxRetries * length (string_entries entries) + 0)));
      [unfold string_entries; lia|].
    apply requests_within_bind.
    { unfold resolve_adjusted. rewrite Hs. by apply requests_within_pure. }
    intros f. apply requests_within_bind; [done|]. intros; by apply requests_within_pure.
Qed.

(** X4. A lookup issues at most five requests to the marketplace, so the
    initial batch issues at most forty and the adjusted batch at most five
    for each entry whose value is a string.  A request that ends after one
    call to the provider has issued at most forty; one that goes through a
    completed ADJUSTED phase has issued at most forty plus five for each
    string entry of the adjusted mapping. *)
Theorem marketplace_requests_bounded req w :
  (forall term w0, requests (fetchProduct env term w0).2 <= requests w0 + 5) /\
  (completions (generate env req w).2 = completions w + 1 ->
   requests (generate env req w).2 <= requests w + 40) /\
  (forall c components fetched w2 c2 adjusted adjustedFetched w3,
     initial_run env req w c components fetched w2 ->
     bundle_acceptable req fetched = false ->
     adjusted_run env req fetched w2 c2 adjusted adjustedFetched w3 ->
     requests (generate env req w).2 <=
       requests w + 40 + 5 * length (string_entries (own_properties adjusted))).
Proof.
  assert (Hinit : forall c components fetched w2,
            initial_run env req w c components fetched w2 -> requests w2 <= requests w + 40).
  { intros c components fetched w2 (_ & _ & _ & _ & _ & Hbatch).
    pose proof (initial_batch_requests components requiredComponents
                  (chatted (currentMessages env req) w)) as Hb.
    rewrite Hbatch in Hb. exact Hb. }
  split; [apply fetchProduct_requests|]. split.
  - intros Hone.
    destruct (generate_reaches_batch req w) as [Hfail | (c & components & fetched & w2 & Hrun)].
    + rewrite Hfail. cbn. lia.
    + rewrite (generate_after_batch _ _ _ _ _ _ Hrun) in *.
      destruct (bundle_acceptable req fetched); cbn [snd] in *; [by eapply Hinit|].
      rewrite adjusted_phase_completions in Hone.
      rewrite (initial_run_completions _ _ _ _ _ _ Hrun) in Hone. lia.
  - intros c components fetched w2 c2 adjusted adjustedFetched w3 Hrun Hacc Hadj.
    rewrite (generate_adjusts _ _ _ _ _ _ _ _ _ _ Hrun Hacc Hadj). cbn [snd].
    specialize (Hinit _ _ _ _ Hrun).
    destruct Hadj as (_ & _ & _ & _ & Hbatch).
    pose proof (adjusted_batch_requests (own_properties adjusted)
                  (chatted (adjustment_of env req fetched) w2)) as Hb.
    rewrite Hbatch in Hb. cbn in Hb. unfold default_maxRetries in Hb. lia.
Qed.

(** *** Reading a page of results *)

Lemma mapM_project_card_run (cs : list Card) (w : World) :
  mapM project_card cs w =
    if cards_readable cs then (Ok (map listing_of_card cs), w) else (Throw TypeError, w).
Proof.
  induction cs as [|c cs IH]; [done|]. cbn [mapM cards_readable forallb map].
  unfold bind at 1, project_card at 1, listing_of_card at 1.
  destruct (previewImages c) as [images|]; [|done]. cbn [andb default].
  unfold ret at 1. unfold bind at 1. rewrite IH.
  fold (cards_readable cs). by destruct (cards_readable cs).
Qed.

Lemma fetchProduct_page term query w0 w1 response w2 :
  NodeCache.get (cacheKey_of env term) w0 = (Ok None, w1) ->
  encodeURIComponent env (ToString env term) = Some query ->
  fetchWithRetry env (search_url query) (search_headers query)
    default_maxRetries default_baseDelay w1 = (Ok response, w2) ->
  fetchProduct env term w0 =
    match content_type response, cards response with
    | Some ct, Some cs =>
        if String_includes ct "application/json" && cards_readable cs
        then (Ok (map listing_of_card cs),
              (NodeCache.set (cacheKey_of env term) (map listing_of_card cs) w2).2)
        else (Ok [], w2)
    | _, _ => (Ok [], w2)
    end.
Proof.
  intros Hget Henc Hfetch.
  unfold fetchProduct, limiter_wrap. unfold bind at 1. rewrite Hget, Henc.
  unfold try_catch, fetch_listings. unfold bind at 1. rewrite Hfetch.
  destruct (content_type response) as [ct|]; [|done].
  destruct (String_includes ct "application/json"); cbn [andb].
  - destruct (cards response) as [cs|]; [|done].
    unfold bind at 1. rewrite mapM_project_card_run.
    by destruct (cards_readable cs).
  - by destruct (cards response).
Qed.

(** X5. How [fetchProduct] reads the response of a search that was not in
    the cache: without a content type, with a content type that is not JSON,
    without a list of cards, or with one card that has no [previewImages],
    the result is the empty sequence and nothing is written to the cache;
    otherwise the result has one listing per card, in the order of the page,
    with the title, the price and the link of the card and its first image
    (or the empty string), and that sequence is what the cache receives. *)
Theorem fetchProduct_reads_page term query w0 w1 response w2 :
  NodeCache.get (cacheKey_of env term) w0 = (Ok None, w1) ->
  encodeURIComponent env (ToString env term) = Some query ->
  fetchWithRetry env (search_url query) (search_headers query)
    default_maxRetries default_baseDelay w1 = (Ok response, w2) ->
  fetchProduct env term w0 =
    match content_type response, cards response with
    | Some ct, Some cs =>
        if String_includes ct "application/json" && cards_readable cs
        then (Ok (map listing_of_card cs),
              (NodeCache.set (cacheKey_of env term) (map listing_of_card cs) w2).2)
        else (Ok [], w2)
    | _, _ => (Ok [], w2)
    end.
Proof.
  intros Hget Henc Hfetch.
  rewrite (fetchProduct_miss _ _ _ _ Hget Henc).
  unfold try_catch, fetch_listings. unfold bind at 1. rewrite Hfetch.
  destruct (content_type response) as [ct|]; [|done].
  destruct (String_includes ct "application/json"); cbn [andb]; [|by destruct (cards response)].
  destruct (cards response) as [cs|]; [|done].
  unfold bind at 1. rewrite mapM_project_card_run.
  by destruct (cards_readable cs).
Qed.

(** *** The cache after a lookup *)

Lemma cacheKey_of_inj (a b : string) :
  cacheKey_of env (JStr a) = cacheKey_of env (JStr b) -> a = b.
Proof. unfold cacheKey_of. cbn. intros H. by simplify_eq. Qed.

(** What is left of [fetchProduct] after a miss: it leaves the cache as it
    is, or it returns listings and stores them under the key of the term for
    3600 seconds. *)
Lemma fetchProduct_miss_cases term (w1 : World) :
  let k := cacheKey_of env term in
  exists r w2,
    match encodeURIComponent env (ToString env term) with
    | None => throw URIError
    | Some query => try_catch (fetch_listings env k query) (fun error => ret [])
    end w1 = (r, w2) /\
    (cache w2 = cache w1 \/
     exists listed,
       r = Ok listed /\
       cache w2 = <[k := {| v := listed; t := (now w2 + 3600 * 1000)%Z |}]> (cache w1)).
Proof.
  intros k.
  destruct (encodeURIComponent env (ToString env term)) as [query|]; [|by eexists _, _; split; [|left]].
  unfold try_catch, fetch_listings, bind.
  pose proof (fetchWithRetry_loop_keeps_cache (search_url query) (search_headers query)
                default_baseDelay default_maxRetries 0 w1) as Hkeep.
  fold (fetchWithRetry env (search_url query) (search_headers query)
          default_maxRetries default_baseDelay) in Hkeep.
  destruct (fetchWithRetry env _ _ _ _ w1) as [[response|e] w2]; cbn [snd] in Hkeep.
  2: { eexists _, _. split; [done|]. by left. }
  destruct (content_type response) as [ct|]; [|by eexists _, _; split; [|left]].
  destruct (String_includes ct "application/json"); [|by eexists _, _; split; [|left]].
  destruct (cards response) as [cs|]; [|by eexists _, _; split; [|left]].
  rewrite mapM_project_card_run.
  destruct (cards_readable cs); [|by eexists _, _; split; [|left]].
  eexists _, _. split; [done|]. right. eexists. split; [done|].
  cbn. by rewrite Hkeep.
Qed.

(** The three ways a lookup ends, with what each leaves in the cache. *)
Lemma fetchProduct_cases term (w : World) :
  let k := cacheKey_of env term in
  (exists e, cache w !! k = Some e /\ (now w <= t e)%Z /\
             fetchProduct env term w = (Ok (v e), w)) \/
  (exists r w2, fetchProduct env term w = (r, w2) /\
                cache w2 = delete k (cache w)) \/
  (exists listed w2, fetchProduct env term w = (Ok listed, w2) /\
                     cache w2 = <[k := {| v := listed; t := (now w2 + 3600 * 1000)%Z |}]>
                                  (delete k (cache w))).
Proof.
  intros k. unfold fetchProduct, limiter_wrap, bind. fold k.
  unfold NodeCache.get, NodeCache.expired.
  destruct (cache w !! k) as [e|] eqn:He.
  - destruct (Z.ltb_spec (t e) (now w)) as [Hdead|Hlive].
    + right.
      destruct (fetchProduct_miss_cases term
                  {| now := now w; cache := delete k (cache w); requests := requests w;
                     completions := completions w; trace := trace w |})
        as (r & w2 & Hrun & [Hsame | (listed & -> & Hset)]); fold k in Hrun; rewrite Hrun.
      * left. by exists r, w2.
      * right. by exists listed, w2.
    + left. by exists e.
  - right.
    destruct (fetchProduct_miss_cases term w)
      as (r & w2 & Hrun & [Hsame | (listed & -> & Hset)]); fold k in Hrun; rewrite Hrun.
    + left. exists r, w2. split; [done|]. by rewrite delete_id.
    + right. exists listed, w2. split; [done|]. by rewrite delete_id.
Qed.

(** X6. After a lookup the cache never holds a stale entry for the term: an
    entry that is there has not expired and holds the very sequence the
    lookup returned, so the same lookup made again at once returns that
    sequence and leaves the world alone.  (An expired entry is removed even
    when the marketplace then fails.) *)
Theorem fetchProduct_leaves_fresh_entry term w e :
  cache (fetchProduct env term w).2 !! cacheKey_of env term = Some e ->
  (now (fetchProduct env term w).2 <= t e)%Z /\
  (fetchProduct env term w).1 = Ok (v e) /\
  fetchProduct env term (fetchProduct env term w).2 =
    (Ok (v e), (fetchProduct env term w).2).
Proof.
  intros He.
  destruct (fetchProduct_cases term w)
    as [(e0 & He0 & Hlive & Hrun) | [(r & w2 & Hrun & Hcache) | (listed & w2 & Hrun & Hcache)]];
    rewrite Hrun in *; cbn [fst snd] in *.
  - rewrite He0 in He. injection He as <-. by rewrite Hrun.
  - by rewrite Hcache, lookup_delete_eq in He.
  - rewrite Hcache, lookup_insert_eq in He. injection He as <-. cbn.
    split; [lia|]. split; [done|].
    apply fetchProduct_hit.
    rewrite (NodeCache_get_live _ {| v := listed; t := (now w2 + 3600 * 1000)%Z |}); [done| |cbn; lia].
    by rewrite Hcache, lookup_insert_eq.
Qed.

Lemma fetchProduct_other_keys term (w : World) (k' : string) :
  k' <> cacheKey_of env term ->
  cache (fetchProduct env term w).2 !! k' = cache w !! k'.
Proof.
  intros Hne.
  destruct (fetchProduct_cases term w)
    as [(e0 & He0 & Hlive & Hrun) | [(r & w2 & Hrun & Hcache) | (listed & w2 & Hrun & Hcache)]];
    rewrite Hrun; cbn [snd]; [done| |].
  - by rewrite Hcache, lookup_delete_ne.
  - by rewrite Hcache, lookup_insert_ne, lookup_delete_ne.
Qed.

(** X7. The lookup of one string never touches what the cache holds for
    another string: their keys differ, and [fetchProduct] reads, evicts and
    writes under the key of its own term only. *)
Theorem fetchProduct_cache_frame (a b : string) (w : World) :
  a <> b ->
  cacheKey_of env (JStr a) <> cacheKey_of env (JStr b) /\
  cache (fetchProduct env (JStr a) w).2 !! cacheKey_of env (JStr b) =
    cache w !! cacheKey_of env (JStr b).
Proof.
  intros Hab.
  assert (Hk : cacheKey_of env (JStr a) <> cacheKey_of env (JStr b))
    by (intros Heq; by apply Hab, cacheKey_of_inj).
  split; [done|]. by apply fetchProduct_other_keys.
Qed.

(** *** Values that are not strings, ties and single listings *)

Lemma findBestMatch_not_string term products (w : World) :
  is_string term = false -> products <> [] ->
  exists e, findBestMatch env term products w = (Throw e, w).
Proof.
  intros Hs Hne. unfold findBestMatch.
  destruct products as [|p rest]; [done|]. cbn [length Nat.eqb].
  unfold bind, stringSimilarity_findBestMatch.
  destruct term; try discriminate Hs; by eexists.
Qed.

(** X8. In the initial batch a required key whose value is not a string
    (a number, null, an object) always resolves to [null]: the marketplace
    may be asked for the printed value, but the similarity package rejects
    the term and the callback absorbs the error. *)
Theorem resolve_required_not_string components (k : string) (w : World) :
  is_string (js_get components k) = false ->
  (resolve_required env components k w).1 = Ok {| key := k; product := None |}.
Proof.
  intros Hs. unfold resolve_required, try_catch, bind.
  destruct (fetchProduct env (js_get components k) w) as [[products|e] w1]; [|done].
  destruct products as [|p rest]; [done|].
  destruct (findBestMatch_not_string (js_get components k) (p :: rest) w1 Hs) as [e ->]; done.
Qed.

(** X9. The listing that [findBestMatch] returns is found by the name of the
    best match, with [indexOf]: it is the earliest listing of that name.  Of
    two listings with the same name, the later one is never returned. *)
Theorem findBestMatch_prefers_earliest (q : string) (products : list Listing) (w : World) :
  products <> [] ->
  exists i p,
    findBestMatch env (JStr q) products w = (Ok (Some p), w) /\
    products !! i = Some p /\
    forall j p', j < i -> products !! j = Some p' -> name p' <> name p.
Proof.
  intros Hne.
  destruct (findBestMatch_at q products w Hne) as (i & p & Hrun & Hat & Hfirst).
  exists i, p. split; [done|]. split; [done|].
  intros j p' Hj Hl Heq. specialize (Hfirst j p' Hj Hl).
  rewrite Heq in Hfirst. by apply Qlt_irrefl in Hfirst.
Qed.

(** *** Completions that are JSON but not a usable object *)

Lemma index_key_not_required (i : nat) : index_key i ∉ requiredComponents.
Proof.
  intros Hin. unfold index_key in Hin.
  pose proof (NilEmpty.usu (Nat.to_uint i)) as Husu.
  apply list_elem_of_In in Hin. cbn in Hin.
  repeat destruct Hin as [Hin | Hin]; try done;
    rewrite <- Hin in Husu; discriminate Husu.
Qed.

Lemma imap_index_keys {A} (g : A -> JsValue) (l : list A) (k : string) :
  k ∈ (imap (fun i x => (index_key i, g x)) l).*1 -> exists i, k = index_key i.
Proof.
  intros (kv & -> & Hin)%list_elem_of_fmap.
  apply elem_of_lookup_imap in Hin as (i & x & -> & _). by exists i.
Qed.

(** X10. A first completion that is valid JSON but not an object (null, a
    boolean, a number, a string or an array) never passes the validation:
    the keys of a string or of an array are indices, and none of the
    required names is an index.  The request ends with the internal error
    after one call to the provider and before any lookup. *)
Theorem non_object_completion_rejected req w c value :
  chat_outcome env (completions w) (currentMessages env req) = Ok c ->
  json c = Some value ->
  (forall props, value <> JObj props) ->
  generate env req w = (Ok InternalServerError, chatted (currentMessages env req) w).
Proof.
  intros Hchat Hjson Hobj.
  destruct (generate_reaches_batch req w)
    as [Hfail | (c' & components & fetched & w2 & Hrun)]; [done|].
  destruct Hrun as (Hchat' & Hjson' & Hnull & Hundef & Hvalid & _).
  rewrite Hchat in Hchat'. injection Hchat' as <-.
  rewrite Hjson in Hjson'. injection Hjson' as <-.
  exfalso.
  assert (Hcpu : "CPU" ∈ (own_properties value).*1).
  { apply (proj1 (required_keys_spec _) Hvalid), list_elem_of_In. cbn. tauto. }
  assert (Hreq : "CPU" ∈ requiredComponents) by (apply list_elem_of_In; cbn; tauto).
  destruct value as [| |b|x|s|elems|props]; cbn in Hcpu.
  - done.
  - done.
  - by apply elem_of_nil in Hcpu.
  - by apply elem_of_nil in Hcpu.
  - apply imap_index_keys in Hcpu as [i Hi]. rewrite Hi in Hreq.
    by apply index_key_not_required in Hreq.
  - apply (imap_index_keys id) in Hcpu as [i Hi]. rewrite Hi in Hreq.
    by apply index_key_not_required in Hreq.
  - by apply (Hobj props).
Qed.

(** *** The categories of a response *)

Lemma obj_get_is_Some {V} (o : list (string * V)) k : is_Some (obj_get o k) <-> k ∈ o.*1.
Proof.
  destruct (obj_get o k) as [x|] eqn:Hget.
  - split; [intros _ | by eauto].
    destruct (decide (k ∈ o.*1)) as [|Hnot]; [done|].
    apply obj_get_None in Hnot. congruence.
  - split; [by intros [? ?]|]. intros Hin. by apply obj_get_None in Hget.
Qed.

Lemma resolved_and_missing (fetched : list Fetched) :
  length (resolved_entries fetched) + length (missingComponents fetched) = length fetched.
Proof.
  unfold resolved_entries, missingComponents.
  induction fetched as [|f fs IH]; [done|]. cbn.
  destruct (product f); cbn; rewrite length_map in *; lia.
Qed.

Lemma resolved_keys_all (fetched : list Fetched) :
  missingComponents fetched = [] -> (resolved_entries fetched).*1 = map key fetched.
Proof.
  unfold resolved_entries, missingComponents.
  induction fetched as [|f fs IH]; [done|]. cbn.
  destruct (product f); cbn; [|done]. intros Hnil. by rewrite IH.
Qed.

(** X11. The categories of what is sent.  After the initial batch every
    required category is either in the bundle or in the missing list: the
    two add up to eight.  An early answer carries exactly the eight required
    categories, in their fixed order, whatever other keys the provider
    added.  After a merge, a category is in the response exactly when it was
    in the initial bundle or an adjusted result for it has a product and its
    key is not ["__proto__"]; such a category is a required one or a key of
    the adjusted mapping, and ["__proto__"] is never one. *)
Theorem response_categories req w c components fetched w2 :
  initial_run env req w c components fetched w2 ->
  length (productResponse_of fetched) + length (missingComponents fetched) = 8 /\
  (bundle_acceptable req fetched = true ->
   (productResponse_of fetched).*1 = requiredComponents) /\
  (forall c2 adjusted adjustedFetched w3 k,
     adjusted_run env req fetched w2 c2 adjusted adjustedFetched w3 ->
     let merged := fold_left assign_product adjustedFetched (productResponse_of fetched) in
     (k ∈ merged.*1 <->
      k ∈ (productResponse_of fetched).*1 \/
      k <> "__proto__" /\
      exists f, f ∈ adjustedFetched /\ key f = k /\ is_Some (product f)) /\
     (k ∈ merged.*1 -> k ∈ requiredComponents \/ k ∈ (own_properties adjusted).*1) /\
     "__proto__" ∉ merged.*1).
Proof.
  intros Hrun.
  pose proof (initial_run_keys _ _ _ _ _ _ Hrun) as Hkeys.
  rewrite (required_response _ Hkeys).
  split; [|split].
  - rewrite resolved_and_missing. by rewrite <- (length_map key), Hkeys.
  - intros [Hmiss _]%bundle_acceptable_true. by rewrite resolved_keys_all.
  - intros c2 adjusted adjustedFetched w3 k (_ & _ & _ & _ & Hbatch) merged.
    assert (Hiff : k ∈ merged.*1 <->
                   k ∈ (resolved_entries fetched).*1 \/
                   k <> "__proto__" /\
                   exists f, f ∈ adjustedFetched /\ key f = k /\ is_Some (product f)).
    { rewrite <- !obj_get_is_Some. unfold merged.
      destruct (obj_get (resolved_entries fetched) k) as [x|] eqn:Hget.
      - split; [intros _; left; by eauto|]. intros _. apply merge_keeps. by rewrite Hget.
      - rewrite (merge_adds _ _ _ Hget). split; [by right|].
        by intros [[? ?]|?]. }
    split; [done|]. split.
    + intros [Hinit | (_ & f & Hf & <- & _)]%Hiff.
      * left. rewrite <- Hkeys. by apply resolved_keys_fetched.
      * right. rewrite <- (adjusted_batch_keys _ _ _ _ Hbatch). by apply list_elem_of_fmap_2.
    + apply obj_get_None. unfold merged. rewrite merge_proto.
      apply obj_get_None. intros Hin%resolved_keys_fetched.
      rewrite Hkeys in Hin. apply list_elem_of_In in Hin. cbn in Hin.
      repeat destruct Hin as [Hin | Hin]; done.
Qed.

(** *** When the provider fails, and adjusted completions without entries *)

(** X12. A call to the provider that rejects ends the request with the
    internal error: at the first call before any lookup, and at the second
    call although the initial batch has completed, whose products are then
    not sent. *)
Theorem provider_rejection_is_fatal req w :
  (forall e,
     chat_outcome env (completions w) (currentMessages env req) = Throw e ->
     generate env req w = (Ok InternalServerError, chatted (currentMessages env req) w)) /\
  (forall c components fetched w2 e,
     initial_run env req w c components fetched w2 ->
     bundle_acceptable req fetched = false ->
     chat_outcome env (completions w2) (adjustment_of env req fetched) = Throw e ->
     generate env req w =
       (Ok InternalServerError, chatted (adjustment_of env req fetched) w2)).
Proof.
  split.
  - intros e Hchat. unfold generate, try_catch, bind.
    by rewrite chat_completions_create_run, Hchat.
  - intros c components fetched w2 e Hrun Hacc Hchat.
    rewrite (generate_after_batch _ _ _ _ _ _ Hrun), Hacc.
    unfold adjusted_phase. unfold try_catch at 1. unfold bind at 1.
    by rewrite chat_completions_create_run, Hchat.
Qed.

(** X13. A second completion that is JSON without entries: [null] ends the
    request with the internal error, although it parses; an empty object, an
    empty array or string, a number or a boolean leaves the initial bundle
    as it is, and the handler sends it under the second text without any
    lookup. *)
Theorem adjusted_completion_without_entries req w c components fetched w2 c2 value :
  initial_run env req w c components fetched w2 ->
  bundle_acceptable req fetched = false ->
  chat_outcome env (completions w2) (adjustment_of env req fetched) = Ok c2 ->
  json c2 = Some value ->
  value <> JUndefined ->
  own_properties value = [] ->
  generate env req w =
    (match value with
     | JNull => Ok InternalServerError
     | _ => Ok (Send (text c2) (productResponse_of fetched))
     end, chatted (adjustment_of env req fetched) w2).
Proof.
  intros Hrun Hacc Hchat Hjson Hundef Hempty.
  rewrite (generate_after_batch _ _ _ _ _ _ Hrun), Hacc.
  unfold adjusted_phase, queue_schedule. unfold try_catch at 1. unfold bind at 1.
  rewrite chat_completions_create_run, Hchat.
  unfold try_catch at 1. unfold bind at 1. unfold JSON_parse at 1. rewrite Hjson.
  unfold ret at 1. unfold bind at 1.
  destruct value as [| |b|x|s|elems|props]; try done;
    cbn [Object_entries]; unfold ret at 1; unfold bind at 1; by rewrite Hempty.
Qed.

(** *** Empty results and failures *)

Lemma NodeCache_get_miss (k : string) (w0 w1 : World) :
  NodeCache.get k w0 = (Ok None, w1) -> cache w1 !! k = None.
Proof.
  unfold NodeCache.get. destruct (cache w0 !! k) as [e|] eqn:He.
  - destruct (NodeCache.expired e (now w0)); [|done].
    intros [= <-]. cbn. apply lookup_delete_eq.
  - by intros [= <-].
Qed.

(** X14. An empty page is remembered, a failure is not.  When the search of
    a term returns a JSON page without cards, the empty sequence is stored:
    for 3600 seconds the term resolves to [null] in a batch without any
    request.  When the fetch fails instead, nothing is stored for the term:
    the next lookup asks the marketplace again. *)
Theorem empty_page_is_cached term query w0 w1 :
  NodeCache.get (cacheKey_of env term) w0 = (Ok None, w1) ->
  encodeURIComponent env (ToString env term) = Some query ->
  (forall response ct w2,
     fetchWithRetry env (search_url query) (search_headers query)
       default_maxRetries default_baseDelay w1 = (Ok response, w2) ->
     content_type response = Some ct ->
     String_includes ct "application/json" = true ->
     cards response = Some [] ->
     let stored := (NodeCache.set (cacheKey_of env term) [] w2).2 in
     fetchProduct env term w0 = (Ok [], stored) /\
     forall components k w',
       js_get components k = term ->
       cache w' !! cacheKey_of env term = cache stored !! cacheKey_of env term ->
       (now w' <= now w2 + 3600 * 1000)%Z ->
       resolve_required env components k w' = (Ok {| key := k; product := None |}, w')) /\
  (forall e w2,
     fetchWithRetry env (search_url query) (search_headers query)
       default_maxRetries default_baseDelay w1 = (Throw e, w2) ->
     fetchProduct env term w0 = (Ok [], w2) /\
     cache w2 !! cacheKey_of env term = None).
Proof.
  intros Hget Henc. split.
  - intros response ct w2 Hfetch Hct Hjson Hcards stored.
    split.
    { rewrite (fetchProduct_page _ _ _ _ _ _ Hget Henc Hfetch), Hct, Hcards, Hjson. done. }
    intros components k w' <- Hsame Hnow.
    assert (Hentry : cache w' !! cacheKey_of env (js_get components k) =
                     Some {| v := []; t := (now w2 + NodeCache.stdTTL * 1000)%Z |}).
    { rewrite Hsame. unfold stored, NodeCache.set. cbn. by rewrite lookup_insert_eq. }
    pose proof (NodeCache_get_live _ _ w' Hentry Hnow) as Hlive. cbn in Hlive.
    unfold resolve_required, try_catch, bind.
    rewrite (fetchProduct_hit (js_get components k) [] w') by by rewrite Hlive.
    done.
  - intros e w2 Hfetch. split.
    + rewrite (fetchProduct_miss _ _ _ _ Hget Henc).
      unfold try_catch, fetch_listings, bind. by rewrite Hfetch.
    + pose proof (fetchWithRetry_loop_keeps_cache (search_url query) (search_headers query)
                    default_baseDelay default_maxRetries 0 w1) as Hkeep.
      fold (fetchWithRetry env (search_url query) (search_headers query)
              default_maxRetries default_baseDelay) in Hkeep.
      rewrite Hfetch in Hkeep. cbn in Hkeep. rewrite Hkeep.
      by apply NodeCache_get_miss in Hget.
Qed.

(** *** The feedback sent to the provider *)

Lemma prefix_app (x a b : string) :
  String.prefix x a = true -> String.prefix x (a +:+ b) = true.
Proof.
  revert a. induction x as [|c x IH]; intros a Hp.
  - by destruct (a +:+ b).
  - destruct a as [|d a]; [done|]. simpl in *.
    destruct (Ascii.ascii_dec c d); [by apply IH | done].
Qed.

Lemma prefix_refl (x : string) : String.prefix x x = true.
Proof.
  induction x as [|c x IH]; [done|]. cbn.
  by destruct (Ascii.ascii_dec c c).
Qed.

Lemma String_includes_app_l (a b x : string) :
  String_includes a x = true -> String_includes (a +:+ b) x = true.
Proof.
  induction a as [|c a IH]; cbn [String_includes].
  - rewrite orb_false_r. intros Hp. destruct x; [|done]. by destruct b.
  - intros [Hp | Hin]%orb_true_iff.
    + apply orb_true_iff. left. by apply (prefix_app x (String c a) b).
    + apply orb_true_iff. right. by apply IH.
Qed.

Lemma String_includes_app_r (a b x : string) :
  String_includes b x = true -> String_includes (a +:+ b) x = true.
Proof.
  intros Hb. induction a as [|c a IH]; [done|].
  cbn [String.append String_includes]. apply orb_true_iff. by right.
Qed.

Lemma String_includes_refl (x : string) : String_includes x x = true.
Proof. destruct x; cbn [String_includes]; by rewrite prefix_refl. Qed.

Lemma String_includes_concat (sep : string) (l : list string) (x : string) :
  x ∈ l -> String_includes (String.concat sep l) x = true.
Proof.
  induction l as [|y l IH]; intros Hin; [by apply elem_of_nil in Hin|].
  apply elem_of_cons in Hin as [->|Hin].
  - destruct l as [|z l]; cbn [String.concat]; [apply String_includes_refl|].
    apply String_includes_app_l, String_includes_refl.
  - destruct l as [|z l]; [by apply elem_of_nil in Hin|].
    cbn [String.concat]. apply String_includes_app_r, String_includes_app_r. by apply IH.
Qed.

(** X15. The feedback of the ADJUSTED call carries what the handler has
    found: both calls start with the same system message, and the user
    message of the second names every missing category and, for every
    product of the bundle, its category and the name of its listing. *)
Theorem adjustment_prompt_is_complete req (fetched : list Fetched) :
  (exists feedback,
     adjustment_of env req fetched =
       [ {| role := "system"; content := systemPrompt env |};
         {| role := "user"; content := feedback |} ] /\
     head (currentMessages env req) = Some {| role := "system"; content := systemPrompt env |} /\
     (forall k, k ∈ missingComponents fetched -> String_includes feedback k = true) /\
     (forall k p, (k, p) ∈ productResponse_of fetched ->
        String_includes feedback k = true /\ String_includes feedback (name p) = true)).
Proof.
  eexists. split; [reflexivity|]. split; [done|].
  unfold adjustmentPrompt. split.
  - intros k Hk.
    do 7 apply String_includes_app_r. apply String_includes_app_l.
    by apply String_includes_concat.
  - intros k p Hin.
    assert (Hline : forall x,
              String_includes
                (k +:+ ": " +:+ name p +:+ " - " +:+ Number_toString env (price p) +:+ " KZT")
                x = true ->
              String_includes (componentsWithPrices env (productResponse_of fetched)) x = true).
    { intros x Hx. unfold componentsWithPrices.
      set (line := fun '(key, product) =>
             key +:+ ": " +:+ name product +:+ " - " +:+
             Number_toString env (price product) +:+ " KZT").
      change (k +:+ ": " +:+ name p +:+ " - " +:+ Number_toString env (price p) +:+ " KZT")
        with (line (k, p)) in Hx.
      assert (Hmem : line (k, p) ∈ map line (productResponse_of fetched))
        by by apply list_elem_of_fmap_2.
      revert Hmem. generalize (map line (productResponse_of fetched)).
      intros l. induction l as [|y l IH]; intros Hmem; [by apply elem_of_nil in Hmem|].
      apply elem_of_cons in Hmem as [<-|Hmem].
      - destruct l as [|z l]; cbn [String.concat]; [done|]. by apply String_includes_app_l.
      - destruct l as [|z l]; [by apply elem_of_nil in Hmem|].
        cbn [String.concat]. apply String_includes_app_r, String_includes_app_r. by apply IH. }
    split.
    + do 9 apply String_includes_app_r. apply String_includes_app_l, Hline.
      apply String_includes_app_l, String_includes_refl.
    + do 9 apply String_includes_app_r. apply String_includes_app_l, Hline.
      do 2 apply String_includes_app_r. apply String_includes_app_l, String_includes_refl.
Qed.

End Properties.

(** The retry scenario of the specification: three throttling responses,
    then the page. *)
Lemma fetchWithRetry_backoff_witness :
  let out := fetchWithRetry Scenario.throttled_thrice "u" [] 5 5000 Scenario.boot in
  out.1 = Ok (Scenario.json_response [Scenario.card "AMD Ryzen 5 3600" 60000%float]) /\
  requests out.2 = 4 /\
  delays_of (trace out.2) = [5000; 10000; 20000]%Z.
Proof.
  apply (proj2 (fetchWithRetry_backoff Scenario.throttled_thrice "u" [] 5 5000 Scenario.boot)).
  - intros j Hj. destruct j as [|[|[|j]]]; try reflexivity. lia.
  - reflexivity.
Defined.

(** ** The theorems at concrete inputs *)

Ltac by_evaluation := vm_compute; first [reflexivity | discriminate].

Lemma all_found_initial_run :
  initial_run Scenario.all_found Scenario.request Scenario.boot
    (Scenario.first_completion Scenario.spec8) Scenario.spec8
    (Scenario.fetched_of (Scenario.initial_batch Scenario.all_found Scenario.spec8))
    (Scenario.initial_batch Scenario.all_found Scenario.spec8).2.
Proof. unfold initial_run. repeat apply conj; try discriminate; by_evaluation. Defined.

Lemma gpu_missing_initial_run :
  initial_run Scenario.gpu_missing Scenario.request Scenario.boot
    (Scenario.first_completion Scenario.spec8) Scenario.spec8
    (Scenario.fetched_of (Scenario.initial_batch Scenario.gpu_missing Scenario.spec8))
    (Scenario.initial_batch Scenario.gpu_missing Scenario.spec8).2.
Proof. unfold initial_run. repeat apply conj; try discriminate; by_evaluation. Defined.

Lemma gpu_missing_adjusted_run :
  adjusted_run Scenario.gpu_missing Scenario.request
    (Scenario.fetched_of (Scenario.initial_batch Scenario.gpu_missing Scenario.spec8))
    (Scenario.initial_batch Scenario.gpu_missing Scenario.spec8).2
    Scenario.second_completion Scenario.adjusted_spec
    (Scenario.fetched_of Scenario.adjusted_batch) Scenario.adjusted_batch.2.
Proof. unfold adjusted_run. repeat apply conj; try discriminate; by_evaluation. Defined.

(** Eight listings at 62500 for a budget of 500000: the first completion and
    the eight products are sent. *)
Lemma early_answer_iff_acceptable_witness :
  generate Scenario.all_found Scenario.request Scenario.boot =
    (Ok (Send "initial completion"
           (resolved_entries
              (Scenario.fetched_of (Scenario.initial_batch Scenario.all_found Scenario.spec8)))),
     (Scenario.initial_batch Scenario.all_found Scenario.spec8).2).
Proof.
  apply (proj1 (proj2 (early_answer_iff_acceptable _ _ _ _ _ _ _ all_found_initial_run))).
  split; by_evaluation.
Defined.

(** The GPU is not found, the adjusted GPU costs 900000: the second
    completion is sent with the merged products after two calls, although
    the merged bundle is far from the budget. *)
Lemma provider_called_at_most_twice_witness :
  generate Scenario.gpu_missing Scenario.request Scenario.boot =
    (Ok (Send "adjusted completion"
           (fold_left assign_product (Scenario.fetched_of Scenario.adjusted_batch)
              (productResponse_of
                 (Scenario.fetched_of (Scenario.initial_batch Scenario.gpu_missing Scenario.spec8))))),
     Scenario.adjusted_batch.2) /\
  completions Scenario.adjusted_batch.2 = 2.
Proof.
  assert (Hacc : bundle_acceptable Scenario.request
                   (Scenario.fetched_of (Scenario.initial_batch Scenario.gpu_missing Scenario.spec8))
                 = false) by by_evaluation.
  exact (proj2 (proj2 (provider_called_at_most_twice Scenario.gpu_missing Scenario.request
                         Scenario.boot))
           _ _ _ _ Scenario.second_completion Scenario.adjusted_spec
           (Scenario.fetched_of Scenario.adjusted_batch) Scenario.adjusted_batch.2
           gpu_missing_initial_run Hacc gpu_missing_adjusted_run).
Defined.


(** In the same run the adjusted value for RAM is a number: the RAM of the
    initial bundle stays. *)
Lemma merge_leaves_unresolved_keys_witness :
  let initial := productResponse_of
                   (Scenario.fetched_of (Scenario.initial_batch Scenario.gpu_missing Scenario.spec8)) in
  obj_get (fold_left assign_product (Scenario.fetched_of Scenario.adjusted_batch) initial) "RAM" =
    obj_get initial "RAM".
Proof.
  intros initial.
  refine (proj1 (proj2 (merge_leaves_unresolved_keys Scenario.gpu_missing
                          (own_properties Scenario.adjusted_spec) Scenario.adjusted_start
                          _ Scenario.adjusted_batch.2 initial "RAM" _)) _).
  - by_evaluation.
  - intros component Hin. apply list_elem_of_In in Hin. cbn in Hin.
    destruct Hin as [Heq | [Heq | []]]; [discriminate Heq|].
    by injection Heq as <-.
Defined.

(** Two listings and the name of the second as the term. *)
Lemma findBestMatch_selects_witness :
  exists p,
    findBestMatch Scenario.all_found (JStr "NZXT H510")
      [Scenario.listing "NZXT H210" 40000; Scenario.listing "NZXT H510" 45000] Scenario.boot =
      (Ok (Some p), Scenario.boot) /\
    p ∈ [Scenario.listing "NZXT H210" 40000; Scenario.listing "NZXT H510" 45000].
Proof.
  destruct (proj1 (proj2 (findBestMatch_selects Scenario.all_found "NZXT H510"
                            [Scenario.listing "NZXT H210" 40000; Scenario.listing "NZXT H510" 45000]
                            Scenario.boot))) as (p & Hrun & Hin & _).
  - discriminate.
  - by exists p.
Defined.

(** Without a network the fetch of a term is the empty sequence. *)
Lemma lookup_errors_absorbed_witness :
  fetchProduct Scenario.offline (JStr "NZXT H510") Scenario.boot =
    (Ok [],
     (fetchWithRetry Scenario.offline (search_url "NZXT H510") (search_headers "NZXT H510")
        default_maxRetries default_baseDelay Scenario.boot).2).
Proof.
  apply (proj1 (proj2 (lookup_errors_absorbed Scenario.offline Scenario.spec8 Scenario.boot))
           (JStr "NZXT H510") "NZXT H510" Scenario.boot Scenario.boot (AxiosError None)).
  - by_evaluation.
  - by_evaluation.
  - by_evaluation.
Defined.

(** A sequence stored at boot is served one second before the hour is over. *)
Lemma cache_serves_until_ttl_witness :
  let products := [Scenario.listing "NZXT H510" 45000] in
  let stored := (NodeCache.set "product:NZXT H510" products Scenario.boot).2 in
  let later := {| now := (now stored + 3599 * 1000)%Z; cache := cache stored;
                  requests := requests stored; completions := completions stored;
                  trace := trace stored |} in
  NodeCache.get "product:NZXT H510" later = (Ok (Some products), later) /\
  fetchProduct Scenario.all_found (JStr "NZXT H510") later = (Ok products, later).
Proof.
  intros products stored later.
  apply (proj1 (cache_serves_until_ttl Scenario.all_found (JStr "NZXT H510") products
                  Scenario.boot) later).
  - by_evaluation.
  - by_evaluation.
Defined.

(** Prose instead of JSON: the internal error, after one call. *)
Lemma generation_failures_are_fatal_witness :
  generate Scenario.malformed Scenario.request Scenario.boot =
    (Ok InternalServerError,
     chatted (currentMessages Scenario.malformed Scenario.request) Scenario.boot).
Proof.
  apply (proj1 (generation_failures_are_fatal Scenario.malformed Scenario.request Scenario.boot)
           {| text := "Sure, here is a build."; json := None |}).
  - by_evaluation.
  - by_evaluation.
Defined.

(** C8, as stated, fails: a completion with the eight required keys and a
    ninth one, Monitor, does not have exactly the required keys, and the
    handler sends the eight products. *)
Lemma nine_keys_accepted :
  ~ required_keys_exactly Scenario.spec9 /\
  (generate Scenario.nine_keys Scenario.request Scenario.boot).1 =
    Ok (Send "initial completion"
          (map (fun k => (k, Scenario.listing "listing" 62500)) requiredComponents)) /\
  ~ inexact_spec_is_fatal.
Proof.
  assert (Hnot : ~ required_keys_exactly Scenario.spec9).
  { intros Hexact. specialize (proj1 (Hexact "Monitor")) as Hin.
    assert (Hmon : "Monitor" ∈ (own_properties Scenario.spec9).*1)
      by (apply list_elem_of_In; vm_compute; tauto).
    apply Hin, list_elem_of_In in Hmon. vm_compute in Hmon.
    repeat destruct Hmon as [Hmon | Hmon]; try discriminate Hmon. exact Hmon. }
  assert (Hsend : (generate Scenario.nine_keys Scenario.request Scenario.boot).1 =
                  Ok (Send "initial completion"
                        (map (fun k => (k, Scenario.listing "listing" 62500)) requiredComponents)))
    by by_evaluation.
  split; [exact Hnot|]. split; [exact Hsend|].
  intros Hclaim.
  specialize (Hclaim Scenario.nine_keys Scenario.request Scenario.boot
                (Scenario.first_completion Scenario.spec9) Scenario.spec9
                eq_refl eq_refl Hnot).
  rewrite Hsend in Hclaim. discriminate Hclaim.
Qed.

(** ** The further properties at concrete inputs *)

Lemma adjusted_number_initial_run :
  initial_run Scenario.adjusted_number Scenario.request Scenario.boot
    (Scenario.first_completion Scenario.spec8) Scenario.spec8
    (Scenario.fetched_of (Scenario.initial_batch Scenario.adjusted_number Scenario.spec8))
    (Scenario.initial_batch Scenario.adjusted_number Scenario.spec8).2.
Proof. unfold initial_run. repeat apply conj; try discriminate; by_evaluation. Defined.

(** Three throttling responses and a page, with the defaults: four requests
    and 35 seconds of the 155 allowed. *)
Lemma fetchWithRetry_bounded_witness :
  let w' := (fetchWithRetry Scenario.throttled_thrice "u" [] 5 5000 Scenario.boot).2 in
  requests Scenario.boot <= requests w' <= requests Scenario.boot + 5 /\
  (0 < 5 -> requests Scenario.boot < requests w') /\
  (now Scenario.boot <= now w' <= now Scenario.boot + 5000 * (2 ^ Z.of_nat 5 - 1))%Z /\
  cache w' = cache Scenario.boot /\
  completions w' = completions Scenario.boot.
Proof.
  apply (fetchWithRetry_bounded Scenario.throttled_thrice "u" [] 5 5000 Scenario.boot).
  lia.
Defined.

(** A page with one card, read at boot. *)
Lemma fetchProduct_reads_page_witness :
  fetchProduct Scenario.all_found (JStr "NZXT H510") Scenario.boot =
    (Ok [Scenario.listing "listing" 62500],
     (NodeCache.set "product:NZXT H510" [Scenario.listing "listing" 62500]
        (fetchWithRetry Scenario.all_found (search_url "NZXT H510") (search_headers "NZXT H510")
           default_maxRetries default_baseDelay Scenario.boot).2).2).
Proof.
  refine (fetchProduct_reads_page Scenario.all_found (JStr "NZXT H510") "NZXT H510"
            Scenario.boot Scenario.boot
            (Scenario.json_response [Scenario.card "listing" 62500]) _ _ _ _).
  - by_evaluation.
  - by_evaluation.
  - by_evaluation.
Defined.

(** The entry that the lookup above leaves. *)
Lemma fetchProduct_leaves_fresh_entry_witness :
  let after := (fetchProduct Scenario.all_found (JStr "NZXT H510") Scenario.boot).2 in
  (now after <= 1720003600000)%Z /\
  (fetchProduct Scenario.all_found (JStr "NZXT H510") Scenario.boot).1 =
    Ok [Scenario.listing "listing" 62500] /\
  fetchProduct Scenario.all_found (JStr "NZXT H510") after =
    (Ok [Scenario.listing "listing" 62500], after).
Proof.
  apply (fetchProduct_leaves_fresh_entry Scenario.all_found (JStr "NZXT H510") Scenario.boot
           {| v := [Scenario.listing "listing" 62500]; t := 1720003600000 |}).
  by_evaluation.
Defined.

(** Looking up one case leaves the entry of another case alone. *)
Lemma fetchProduct_cache_frame_witness :
  cacheKey_of Scenario.all_found (JStr "NZXT H510") <>
    cacheKey_of Scenario.all_found (JStr "NZXT H210") /\
  cache (fetchProduct Scenario.all_found (JStr "NZXT H510") Scenario.boot).2
    !! cacheKey_of Scenario.all_found (JStr "NZXT H210") =
  cache Scenario.boot !! cacheKey_of Scenario.all_found (JStr "NZXT H210").
Proof.
  apply (fetchProduct_cache_frame Scenario.all_found "NZXT H510" "NZXT H210" Scenario.boot).
  discriminate.
Defined.

(** A CPU given as the number 3600 resolves to [null]. *)
Lemma resolve_required_not_string_witness :
  (resolve_required Scenario.all_found Scenario.numeric_cpu "CPU" Scenario.boot).1 =
    Ok {| key := "CPU"; product := None |}.
Proof.
  apply (resolve_required_not_string Scenario.all_found Scenario.numeric_cpu "CPU" Scenario.boot).
  by_evaluation.
Defined.

(** Two listings with one name and two prices. *)
Lemma findBestMatch_prefers_earliest_witness :
  exists i p,
    findBestMatch Scenario.all_found (JStr "NZXT H510")
      [Scenario.listing "NZXT H510" 40000; Scenario.listing "NZXT H510" 45000] Scenario.boot =
      (Ok (Some p), Scenario.boot) /\
    [Scenario.listing "NZXT H510" 40000; Scenario.listing "NZXT H510" 45000] !! i = Some p /\
    forall j p', j < i ->
      [Scenario.listing "NZXT H510" 40000; Scenario.listing "NZXT H510" 45000] !! j = Some p' ->
      name p' <> name p.
Proof.
  apply (findBestMatch_prefers_earliest Scenario.all_found "NZXT H510"
           [Scenario.listing "NZXT H510" 40000; Scenario.listing "NZXT H510" 45000]
           Scenario.boot).
  discriminate.
Defined.

(** A JSON array as the first completion. *)
Lemma non_object_completion_rejected_witness :
  generate Scenario.answers_array Scenario.request Scenario.boot =
    (Ok InternalServerError,
     chatted (currentMessages Scenario.answers_array Scenario.request) Scenario.boot).
Proof.
  apply (non_object_completion_rejected Scenario.answers_array Scenario.request Scenario.boot
           Scenario.array_completion (JArr [JStr "AMD Ryzen 5 3600"])).
  - by_evaluation.
  - by_evaluation.
  - discriminate.
Defined.

(** With the GPU missing, seven products and one missing category; after
    the merge of [gpu_missing] the GPU is one of the categories. *)
Lemma response_categories_witness :
  let fetched := Scenario.fetched_of (Scenario.initial_batch Scenario.gpu_missing Scenario.spec8) in
  length (productResponse_of fetched) + length (missingComponents fetched) = 8 /\
  "GPU" ∈ (fold_left assign_product (Scenario.fetched_of Scenario.adjusted_batch)
             (productResponse_of fetched)).*1.
Proof.
  intros fetched.
  destruct (response_categories _ _ _ _ _ _ _ gpu_missing_initial_run) as (Hcount & _ & Hmerge).
  split; [exact Hcount|].
  apply (proj1 (Hmerge _ _ _ _ "GPU" gpu_missing_adjusted_run)).
  right. split; [discriminate|].
  exists {| key := "GPU"; product := Some (Scenario.listing "RTX 4090" 900000) |}.
  split; [|by split]. apply list_elem_of_In. vm_compute. tauto.
Defined.

(** A provider that is down. *)
Lemma provider_rejection_is_fatal_witness :
  generate Scenario.provider_down Scenario.request Scenario.boot =
    (Ok InternalServerError,
     chatted (currentMessages Scenario.provider_down Scenario.request) Scenario.boot).
Proof.
  apply (proj1 (provider_rejection_is_fatal Scenario.provider_down Scenario.request Scenario.boot)
           (JsError "503")).
  by_evaluation.
Defined.

(** The number 42 as the second completion: the seven products of the
    initial bundle are sent under the second text. *)
Lemma adjusted_completion_without_entries_witness :
  let fetched :=
    Scenario.fetched_of (Scenario.initial_batch Scenario.adjusted_number Scenario.spec8) in
  generate Scenario.adjusted_number Scenario.request Scenario.boot =
    (Ok (Send "number completion" (productResponse_of fetched)),
     chatted (adjustment_of Scenario.adjusted_number Scenario.request fetched)
       (Scenario.initial_batch Scenario.adjusted_number Scenario.spec8).2).
Proof.
  intros fetched.
  refine (adjusted_completion_without_entries Scenario.adjusted_number Scenario.request
            Scenario.boot _ _ _ _ Scenario.number_completion (JNum 42)
            adjusted_number_initial_run _ _ _ _ _).
  - by_evaluation.
  - by_evaluation.
  - by_evaluation.
  - discriminate.
  - by_evaluation.
Defined.

(** A search without results at boot: the empty sequence is stored. *)
Lemma empty_page_is_cached_witness :
  let w2 := (fetchWithRetry Scenario.no_results (search_url "NZXT H510")
               (search_headers "NZXT H510") default_maxRetries default_baseDelay
               Scenario.boot).2 in
  fetchProduct Scenario.no_results (JStr "NZXT H510") Scenario.boot =
    (Ok [], (NodeCache.set "product:NZXT H510" [] w2).2).
Proof.
  intros w2.
  refine (proj1 (proj1 (empty_page_is_cached Scenario.no_results (JStr "NZXT H510") "NZXT H510"
                          Scenario.boot Scenario.boot _ _)
                   (Scenario.json_response []) "application/json;charset=UTF-8" w2 _ _ _ _)).
  - by_evaluation.
  - by_evaluation.
  - by_evaluation.
  - by_evaluation.
  - by_evaluation.
  - by_evaluation.
Defined.

(** A request answered early has issued eight requests, within the forty. *)
Lemma marketplace_requests_bounded_witness :
  requests (generate Scenario.all_found Scenario.request Scenario.boot).2 <=
    requests Scenario.boot + 40.
Proof.
  apply (proj1 (proj2 (marketplace_requests_bounded Scenario.all_found Scenario.request
                         Scenario.boot))).
  by_evaluation.
Defined.

(** With the GPU missing, the feedback names the GPU. *)
Lemma adjustment_prompt_is_complete_witness :
  let fetched := Scenario.fetched_of (Scenario.initial_batch Scenario.gpu_missing Scenario.spec8) in
  exists feedback,
    adjustment_of Scenario.gpu_missing Scenario.request fetched =
      [ {| role := "system"; content := systemPrompt Scenario.gpu_missing |};
        {| role := "user"; content := feedback |} ] /\
    String_includes feedback "GPU" = true.
Proof.
  intros fetched.
  destruct (adjustment_prompt_is_complete Scenario.gpu_missing Scenario.request fetched)
    as (feedback & Heq & _ & Hmissing & _).
  exists feedback. split; [exact Heq|].
  apply Hmissing. apply list_elem_of_In. vm_compute. tauto.
Defined.

(** ** Where the specification goes further than the code *)




(** C4, as stated, fails: for the number 3600 as the term and a sequence of
    one listing, [findBestMatch] returns no listing; it throws. *)
Lemma non_string_term_not_selected :
  findBestMatch Scenario.all_found (JNum 3600)
    [Scenario.listing "AMD Ryzen 5 3600" 60000] Scenario.boot =
    (Throw (JsError "Bad arguments: First argument should be a string, second should be an array of strings"),
     Scenario.boot) /\
  ~ selects_for_any_term.
Proof.
  assert (Hthrow : findBestMatch Scenario.all_found (JNum 3600)
                     [Scenario.listing "AMD Ryzen 5 3600" 60000] Scenario.boot =
                   (Throw (JsError "Bad arguments: First argument should be a string, second should be an array of strings"),
                    Scenario.boot)) by reflexivity.
  split; [exact Hthrow|].
  intros Hclaim.
  destruct (Hclaim Scenario.all_found (JNum 3600)
              [Scenario.listing "AMD Ryzen 5 3600" 60000] Scenario.boot)
    as (p & Hrun & _); [discriminate|].
  rewrite Hthrow in Hrun. discriminate Hrun.
Qed.
